(** * Simultaneous Equation Cannon spreadsheet generator: model and properties

    A shallow embedding of [generate.py]: the enumerator [solve], the
    renderer [generate_excel] and the command-line entry point [main].
    Python integers are [Z]; a solution dictionary with its four fixed
    keys is a record; the worksheet is a finite map from (row, column)
    to cells together with the list of merged ranges. *)

From Stdlib Require Import ZArith List Lia Sorted Permutation.
From Stdlib Require Import Ascii String DecimalString DecimalPos DecimalZ.
From stdpp Require Import gmap strings list fin_maps sorting.

Local Open Scope Z_scope.

(** ** Solution records *)

(** The dictionary [{"stars": _, "nb_cards": _, "xyz": _, "fusion": _}]. *)
Record solution := Solution {
  stars : Z;
  nb_cards : Z;
  xyz : Z;
  fusion : Z
}.

#[global] Instance solution_eq_dec : EqDecision solution.
Proof. solve_decision. Defined.

(** ** The enumerator *)

(** Python's [range(a, b)]: the integers [a], [a+1], ..., [b-1]
    (empty when [b <= a]). *)
Definition range (a b : Z) : list Z := seqZ a (b - a).

(** The record appended by the inner loop body. *)
Definition mk_solution (fusion0 xyz0 : Z) : solution :=
  let stars0 := fusion0 + xyz0 in
  let nb_cards0 := fusion0 + 2 * xyz0 in
  {| stars := stars0; nb_cards := nb_cards0; xyz := xyz0; fusion := fusion0 |}.

(** The two nested [for] loops, threading the accumulator [solutions]
    that the body extends with [append]. *)
Definition enumerate_loops (fusion_min fusion_max xyz_min xyz_max : Z)
  : list solution :=
  fold_left
    (fun solutions fusion0 =>
       fold_left
         (fun solutions xyz0 => solutions ++ [mk_solution fusion0 xyz0])
         (range xyz_min (xyz_max + 1)) solutions)
    (range fusion_min (fusion_max + 1)) [].

(** The sort key [lambda s: (s["stars"], s["xyz"])]. *)
Definition sort_key (s : solution) : Z * Z := (stars s, xyz s).

(** Python's ordering of tuples of integers: lexicographic. *)
Definition tuple_ltb (k1 k2 : Z * Z) : bool :=
  (k1.1 <? k2.1) || ((k1.1 =? k2.1) && (k1.2 <? k2.2)).

(** [list.sort(key=sort_key, reverse=True)] is a stable sort into
    descending key order: elements with equal keys keep their relative
    order.  It is modelled by a stable insertion sort; [insert_desc]
    places [x] in front of the first element whose key is not greater. *)
Fixpoint insert_desc (x : solution) (l : list solution) : list solution :=
  match l with
  | [] => [x]
  | y :: l' =>
      if tuple_ltb (sort_key x) (sort_key y)
      then y :: insert_desc x l'
      else x :: y :: l'
  end.

Definition sort_desc (l : list solution) : list solution :=
  fold_right insert_desc [] l.

Definition solve (fusion_min fusion_max xyz_min xyz_max : Z) : list solution :=
  let solutions := enumerate_loops fusion_min fusion_max xyz_min xyz_max in
  sort_desc solutions.

(** The bounds accepted by the command line. *)
Definition valid_bounds (fusion_min fusion_max xyz_min xyz_max : Z) : Prop :=
  fusion_min <= fusion_max /\ xyz_min <= xyz_max /\
  1 <= fusion_min /\ 1 <= xyz_min.

(** Descending order on sort keys, as a relation on records. *)
Definition key_ge (r1 r2 : solution) : Prop :=
  stars r2 < stars r1 \/ (stars r2 = stars r1 /\ xyz r2 <= xyz r1).

Definition key_gt (r1 r2 : solution) : Prop :=
  stars r2 < stars r1 \/ (stars r2 = stars r1 /\ xyz r2 < xyz r1).

(** ** Exceptions *)

(** The exceptions the program can end with.  [SystemExit] carries the
    process exit status and the message written to standard error. *)
Inductive exn :=
  | TypeError
  | FileNotFoundError (path : string)
  | FileExistsError (path : string)
  | IsADirectoryError (path : string)
  | SystemExit (code : Z) (message : string).

(** A computation that returns or raises. *)
Definition result (A : Type) : Type := exn + A.

Definition rbind {A B} (m : result A) (k : A -> result B) : result B :=
  match m with
  | inl e => inl e
  | inr a => k a
  end.

(** ** The worksheet *)

Inductive value :=
  | VNone
  | VInt (n : Z)
  | VStr (s : string).

#[global] Instance value_eq_dec : EqDecision value.
Proof. solve_decision. Defined.

(** A cell: its value and the three style attributes the program sets. *)
Record cell := Cell {
  cell_value : value;
  font_bold : bool;
  alignment_center : bool;
  border_left_thin : bool
}.

(** A freshly created cell (also what a merged, non-anchor cell shows). *)
Definition blank_cell : cell := Cell VNone false false false.

(** A rectangular range of cells, as passed to [merge_cells]. *)
Record cell_range := CellRange {
  start_row : Z;
  start_column : Z;
  end_row : Z;
  end_column : Z
}.

#[global] Instance cell_range_eq_dec : EqDecision cell_range.
Proof. solve_decision. Defined.

Record worksheet := Worksheet {
  title : string;
  cells : gmap (Z * Z) cell;
  merged_cells : list cell_range
}.

(** [Workbook().active]: one empty sheet. *)
Definition new_sheet : worksheet := Worksheet "Sheet" ∅ [].

Definition set_title (t : string) (ws : worksheet) : worksheet :=
  Worksheet t (cells ws) (merged_cells ws).

(** [ws.cell(row=, column=, value=)]: the cell is created when absent,
    and its value is assigned only when [value] is not [None]. *)
Definition ws_cell (ws : worksheet) (row column : Z) (v : value) : worksheet :=
  let c := default blank_cell (cells ws !! (row, column)) in
  let c' :=
    match v with
    | VNone => c
    | _ => Cell v (font_bold c) (alignment_center c) (border_left_thin c)
    end in
  Worksheet (title ws) (<[(row, column) := c']> (cells ws)) (merged_cells ws).

(** The three attribute assignments made on a header cell. *)
Definition style_header (ws : worksheet) (row column : Z) : worksheet :=
  Worksheet (title ws)
    (alter (fun c => Cell (cell_value c) true true true) (row, column) (cells ws))
    (merged_cells ws).

(** The coordinates of a range, rows outermost. *)
Definition range_coords (r : cell_range) : list (Z * Z) :=
  flat_map
    (fun row => map (fun col => (row, col))
                    (range (start_column r) (end_column r + 1)))
    (range (start_row r) (end_row r + 1)).

(** [ws.merge_cells(start_row=, start_column=, end_row=, end_column=)]:
    the range is recorded (once) and every cell of the range but the
    top-left one is replaced by an empty merged cell. *)
Definition merge_cells (ws : worksheet) (sr sc er ec : Z) : worksheet :=
  let mcr := CellRange sr sc er ec in
  Worksheet (title ws)
    (fold_right (fun k m => <[k := blank_cell]> m) (cells ws)
                (tail (range_coords mcr)))
    (if decide (mcr ∈ merged_cells ws) then merged_cells ws
     else merged_cells ws ++ [mcr]).

(** Python's [enumerate(l, start=n)]. *)
Definition enumerate {A} (start : Z) (l : list A) : list (Z * A) :=
  combine (seqZ start (Z.of_nat (length l))) l.

(** *** Header row *)

Definition headers : list string := ["stars"; "nb cards"; "xyz"; "fusion"]%string.

Definition header_row (ws : worksheet) : worksheet :=
  fold_left
    (fun ws '(col_idx, header) =>
       style_header (ws_cell ws 1 col_idx (VStr header)) 1 col_idx)
    (enumerate 1 headers) ws.

(** *** Data rows *)

(** The variables the data loop carries from one row to the next. *)
Record loop_state := LoopState {
  ls_ws : worksheet;
  current_stars : option Z;
  group_start_row : option Z
}.

(** One iteration of the data loop.  Comparing an integer with [None]
    by [>] raises [TypeError]; the test [current_stars is not None]
    comes first and short-circuits. *)
Definition data_row (st : loop_state) (row_idx : Z) (sol : solution)
  : result loop_state :=
  let stars_val := stars sol in
  rbind
    (if decide (Some stars_val <> current_stars st) then
       rbind
         (match current_stars st with
          | None => inr (ls_ws st)
          | Some _ =>
              match group_start_row st with
              | None => inl TypeError
              | Some g =>
                  if row_idx - 1 >? g
                  then inr (merge_cells (ls_ws st) g 1 (row_idx - 1) 1)
                  else inr (ls_ws st)
              end
          end)
         (fun ws =>
            inr (LoopState (ws_cell ws row_idx 1 (VInt stars_val))
                           (Some stars_val) (Some row_idx)))
     else
       inr (LoopState (ws_cell (ls_ws st) row_idx 1 VNone)
                      (current_stars st) (group_start_row st)))
    (fun st1 =>
       let ws := ls_ws st1 in
       let ws := ws_cell ws row_idx 2 (VInt (nb_cards sol)) in
       let ws := ws_cell ws row_idx 3 (VInt (xyz sol)) in
       let ws := ws_cell ws row_idx 4 (VInt (fusion sol)) in
       inr (LoopState ws (current_stars st1) (group_start_row st1))).

(** The [for row_idx, sol in enumerate(solutions, start=2)] loop. *)
Definition data_rows (rows : list (Z * solution)) (st : loop_state)
  : result loop_state :=
  fold_left (fun acc '(row_idx, sol) => rbind acc (fun st => data_row st row_idx sol))
            rows (inr st).

(** Closing the last group after the loop. *)
Definition close_last_group (solutions : list solution) (st : loop_state)
  : result worksheet :=
  let last_row := Z.of_nat (length solutions) + 1 in
  match group_start_row st with
  | None => inr (ls_ws st)
  | Some g =>
      if last_row >? g
      then inr (merge_cells (ls_ws st) g 1 last_row 1)
      else inr (ls_ws st)
  end.

(** Everything [generate_excel] does before saving: the sheet it builds. *)
Definition build_sheet (solutions : list solution) : result worksheet :=
  let ws := set_title "Sheet1" new_sheet in
  let ws := header_row ws in
  rbind (data_rows (enumerate 2 solutions) (LoopState ws None None))
        (close_last_group solutions).

(** ** The outside world *)

(** What a run can be observed to do, in order. *)
Inductive event :=
  | EvSolve (fusion_min fusion_max xyz_min xyz_max : Z)
  | EvGenerateExcel (solutions : list solution) (output_path : string)
  | EvMakedirs (name : string)
  | EvSave (path : string)
  | EvPrint (line : string).

(** The file system is named by path strings: [dirs] holds the paths
    known to be directories, [files] maps the path of each saved
    workbook to its sheet.  The current directory always exists and is
    the parent of every path without a directory part.  Permissions,
    links and the parents of a directory are not tracked: a directory
    is known by the path it was made under.  [trace] logs the calls
    made so far. *)
Record world := World {
  dirs : gset string;
  files : gmap string worksheet;
  trace : list event
}.

(** Computations that read and change the world and may raise. *)
Definition M (A : Type) : Type := world -> world * result A.

Definition ret {A} (a : A) : M A := fun w => (w, inr a).
Definition raise {A} (e : exn) : M A := fun w => (w, inl e).
Definition bind {A B} (m : M A) (k : A -> M B) : M B :=
  fun w =>
    match m w with
    | (w', inl e) => (w', inl e)
    | (w', inr a) => k a w'
    end.
Definition lift {A} (r : result A) : M A := fun w => (w, r).
Definition log (e : event) : M unit :=
  fun w => (World (dirs w) (files w) (trace w ++ [e]), inr tt).

Notation "'do' x <- m ; k" := (bind m (fun x => k))
  (at level 10, x name, m at level 100, k at level 200).
Notation "m ;; k" := (bind m (fun _ => k))
  (at level 100, k at level 200, right associativity).

(** *** Paths (POSIX flavour of [os.path]) *)

Definition sep : ascii := "/"%char.

Definition is_sep (c : ascii) : bool := bool_decide (c = sep).

Fixpoint ends_with_sep (s : string) : bool :=
  match s with
  | EmptyString => false
  | String c EmptyString => is_sep c
  | String _ s' => ends_with_sep s'
  end.

Definition starts_with_sep (s : string) : bool :=
  match s with
  | String c _ => is_sep c
  | EmptyString => false
  end.

(** [os.path.join(a, *p)]. *)
Definition os_path_join (a : string) (p : list string) : string :=
  fold_left
    (fun path b =>
       if starts_with_sep b then b
       else if bool_decide (path = ""%string) || ends_with_sep path
            then (path ++ b)%string
            else (path ++ "/" ++ b)%string)
    p a.

(** [p[:p.rfind("/") + 1]]: the prefix up to and including the last
    separator, empty when there is none. *)
Fixpoint head_to_last_sep (p : string) : string :=
  match p with
  | EmptyString => EmptyString
  | String c p' =>
      match head_to_last_sep p' with
      | EmptyString => if is_sep c then String c EmptyString else EmptyString
      | h => String c h
      end
  end.

(** [s.rstrip("/")]. *)
Fixpoint rstrip_sep (s : string) : string :=
  match s with
  | EmptyString => EmptyString
  | String c s' =>
      match rstrip_sep s' with
      | EmptyString => if is_sep c then EmptyString else String c EmptyString
      | r => String c r
      end
  end.

(** [s == "/" * len(s)]. *)
Fixpoint all_sep (s : string) : bool :=
  match s with
  | EmptyString => true
  | String c s' => is_sep c && all_sep s'
  end.

(** ["/" in s]. *)
Fixpoint contains_sep (s : string) : bool :=
  match s with
  | EmptyString => false
  | String c s' => is_sep c || contains_sep s'
  end.

(** [os.path.dirname(p)]. *)
Definition os_path_dirname (p : string) : string :=
  let head := head_to_last_sep p in
  if negb (bool_decide (head = ""%string)) && negb (all_sep head)
  then rstrip_sep head
  else head.

(** *** File-system calls *)

(** [os.makedirs(name, exist_ok=True)]: the empty name is no path at
    all ([FileNotFoundError]); a name taken by a file is an error; an
    existing directory is tolerated; otherwise the directory is made.
    Names are taken as spelled and only the named directory is
    recorded: what happens to its parents (made when missing, an error
    when one of them is a file) is outside this file system. *)
Definition os_makedirs (name : string) : M unit :=
  log (EvMakedirs name) ;;
  fun w =>
    if bool_decide (name = ""%string) then (w, inl (FileNotFoundError name))
    else if bool_decide (is_Some (files w !! name))
         then (w, inl (FileExistsError name))
         else (World ({[name]} ∪ dirs w) (files w) (trace w), inr tt).

(** [wb.save(path)]: the parent directory must exist and the path must
    not be a directory; an existing file is overwritten.  Paths are
    taken as spelled: a path is a directory when it is listed as one
    under this spelling, and two spellings of one file are two keys. *)
Definition wb_save (wb : worksheet) (path : string) : M unit :=
  log (EvSave path) ;;
  fun w =>
    let parent := os_path_dirname path in
    if bool_decide (path ∈ dirs w) then (w, inl (IsADirectoryError path))
    else if bool_decide (parent = ""%string) || bool_decide (parent ∈ dirs w)
         then (World (dirs w) (<[path := wb]> (files w)) (trace w), inr tt)
         else (w, inl (FileNotFoundError path)).

Definition print (line : string) : M unit := log (EvPrint line).

(** ** The renderer *)

Definition generate_excel (solutions : list solution) (output_path : string)
  : M unit :=
  log (EvGenerateExcel solutions output_path) ;;
  do wb <- lift (build_sheet solutions) ;
  os_makedirs (os_path_dirname output_path) ;;
  wb_save wb output_path ;;
  print ("Saved: " ++ output_path).

(** ** The command line *)

(** The parsed arguments ([argparse.Namespace]). *)
Record namespace := Namespace {
  arg_xyz_min : Z;
  arg_xyz_max : Z;
  arg_fusion_min : Z;
  arg_fusion_max : Z
}.

(** [parser.error(message)]: usage and message go to standard error and
    the process exits with status 2. *)
Definition parser_error {A} (message : string) : M A :=
  raise (SystemExit 2 message).

(** [str(n)] for an integer, as an f-string formats it. *)
Definition str (n : Z) : string := NilZero.string_of_int (Z.to_int n).

Definition output_filename (args : namespace) : string :=
  ("sec xyz" ++ str (arg_xyz_min args) ++ "-" ++ str (arg_xyz_max args)
   ++ " fusion" ++ str (arg_fusion_min args) ++ "-" ++ str (arg_fusion_max args)
   ++ ".xlsx")%string.

(** [main], after [parse_args] has produced [args]; [script_dir] is
    [os.path.dirname(os.path.abspath(__file__))]. *)
Definition main (script_dir : string) (args : namespace) : M unit :=
  (if arg_fusion_min args >? arg_fusion_max args
   then parser_error "fusion_min must be ≤ fusion_max" else ret tt) ;;
  (if arg_xyz_min args >? arg_xyz_max args
   then parser_error "xyz_min must be ≤ xyz_max" else ret tt) ;;
  (if (arg_fusion_min args <? 1) || (arg_xyz_min args <? 1)
   then parser_error "All level/rank values must be ≥ 1" else ret tt) ;;
  log (EvSolve (arg_fusion_min args) (arg_fusion_max args)
               (arg_xyz_min args) (arg_xyz_max args)) ;;
  let solutions := solve (arg_fusion_min args) (arg_fusion_max args)
                         (arg_xyz_min args) (arg_xyz_max args) in
  let filename := output_filename args in
  let output_path := os_path_join script_dir ["results"%string; filename] in
  generate_excel solutions output_path.

(** The world before a run: some file system, nothing logged yet. *)
Definition initial_world (ds : gset string) (fs : gmap string worksheet) : world :=
  World ds fs [].

(** ** What the sheet should look like *)

(** The sheet row of the solution at position [i] (counted from 0). *)
Definition row_of (i : nat) : Z := Z.of_nat i + 2.

(** A cell holding [v] with default style. *)
Definition plain (v : value) : cell := Cell v false false false.

(** A header cell: bold, centred, thin left border. *)
Definition header_cell (h : string) : cell := Cell (VStr h) true true true.

(** Position [i] opens a group: it is the first position, or its value
    differs from the one before. *)
Definition starts_group (ss : list Z) (i : nat) : bool :=
  match i with
  | O => true
  | S i' => bool_decide (ss !! i' <> ss !! i)
  end.

(** Positions [i..j] of [ss] are a maximal contiguous run of one value:
    constant on [i..j], not extendable to the left (a group opens at
    [i]) nor to the right (position [j+1] is past the end or holds
    another value; past the end the lookup is [None]). *)
Definition maximal_run (ss : list Z) (i j : nat) : Prop :=
  (i <= j < length ss)%nat /\
  (forall k, (i <= k <= j)%nat -> ss !! k = ss !! i) /\
  starts_group ss i = true /\
  ss !! S j <> ss !! j.

(** The four cells of a data row, by column. *)
Definition row_cells (v1 v2 v3 v4 : value) (c : Z) : option cell :=
  if bool_decide (c = 1) then Some (plain v1)
  else if bool_decide (c = 2) then Some (plain v2)
  else if bool_decide (c = 3) then Some (plain v3)
  else if bool_decide (c = 4) then Some (plain v4)
  else None.

(** The value column 1 shows for position [i]: the stars value on the
    first row of a group, nothing on the others. *)
Definition stars_cell_value (solutions : list solution) (i : nat) (sol : solution)
  : value :=
  if starts_group (stars <$> solutions) i then VInt (stars sol) else VNone.

(** The sheet as the renderer's contract describes it, cell by cell:
    headers in row 1, the solution at position [i] in row [i + 2],
    nothing anywhere else. *)
Definition spec_sheet_cell (solutions : list solution) (r c : Z) : option cell :=
  if bool_decide (r = 1) then
    if bool_decide (1 <= c) then header_cell <$> headers !! Z.to_nat (c - 1)
    else None
  else if bool_decide (2 <= r) then
    match solutions !! Z.to_nat (r - 2) with
    | None => None
    | Some sol =>
        row_cells (stars_cell_value solutions (Z.to_nat (r - 2)) sol)
                  (VInt (nb_cards sol)) (VInt (xyz sol)) (VInt (fusion sol)) c
    end
  else None.

(** The four cell writes of one loop iteration, with [v1] the value
    given for column 1. *)
Definition write_row (ws : worksheet) (row_idx : Z) (v1 : value) (sol : solution)
  : worksheet :=
  let ws := ws_cell ws row_idx 1 v1 in
  let ws := ws_cell ws row_idx 2 (VInt (nb_cards sol)) in
  let ws := ws_cell ws row_idx 3 (VInt (xyz sol)) in
  ws_cell ws row_idx 4 (VInt (fusion sol)).

(** The sheet on entry to the data loop. *)
Definition header_sheet : worksheet := header_row (set_title "Sheet1" new_sheet).

(** ** The data loop's invariant *)

(** What holds of the loop variables once the first [n] solutions have
    been written: [current_stars] is the value of the row written last
    and [group_start_row] the row where its group opened; the ranges
    merged so far are the maximal runs of two or more rows that ended
    before the last written row; and the cells of rows [2..n+1] are as
    the contract describes them, the rest of the sheet being as the
    header pass left it. *)
Record loop_inv (solutions : list solution) (n : nat) (st : loop_state) : Prop := {
  inv_group :
    match n with
    | O => current_stars st = None /\ group_start_row st = None
    | S m =>
        current_stars st = (stars <$> solutions) !! m /\
        exists i0 : nat,
          group_start_row st = Some (row_of i0) /\ (i0 <= m)%nat /\
          starts_group (stars <$> solutions) i0 = true /\
          forall k, (i0 <= k <= m)%nat ->
                    (stars <$> solutions) !! k = (stars <$> solutions) !! i0
    end;
  inv_merged :
    forall r, r ∈ merged_cells (ls_ws st) <->
      exists i j : nat,
        r = CellRange (row_of i) 1 (row_of j) 1 /\ (i < j)%nat /\ (S j < n)%nat /\
        maximal_run (stars <$> solutions) i j;
  inv_nodup : NoDup (merged_cells (ls_ws st));
  inv_cells :
    forall r c, cells (ls_ws st) !! (r, c) =
      if bool_decide (2 <= r < row_of n) then spec_sheet_cell solutions r c
      else cells header_sheet !! (r, c)
}.

(** ** Decimal strings *)

(** [c in "0123456789"]. *)
Definition is_digit (c : ascii) : bool :=
  match c with
  | "0" | "1" | "2" | "3" | "4" | "5" | "6" | "7" | "8" | "9" => true
  | _ => false
  end%char.

(** [s.isdigit()] for ASCII strings, true of the empty string too. *)
Fixpoint all_digits (s : string) : bool :=
  match s with
  | EmptyString => true
  | String c s' => is_digit c && all_digits s'
  end.

(** * Properties *)

(** ** The enumerator *)

Example solve_1_1_1_1 :
  solve 1 1 1 1 = [Solution 2 3 1 1].
Proof. reflexivity. Qed.

Example solve_1_2_1_2 :
  solve 1 2 1 2 =
  [Solution 4 6 2 2; Solution 3 5 2 1; Solution 3 4 1 2; Solution 2 3 1 1].
Proof. reflexivity. Qed.

Section Enumeration.

Variables fusion_min fusion_max xyz_min xyz_max : Z.

Lemma append_loop {A B} (g : A -> B) (xs : list A) (acc : list B) :
  fold_left (fun acc x => acc ++ [g x]) xs acc = acc ++ (g <$> xs).
Proof.
  revert acc. induction xs as [|x xs IH]; intros acc; simpl.
  - by rewrite app_nil_r.
  - rewrite IH, <- app_assoc. done.
Qed.

Lemma nested_loop {A B C} (g : A -> B -> C) (fs : list A) (xs : list B)
    (acc : list C) :
  fold_left
    (fun acc f => fold_left (fun acc x => acc ++ [g f x]) xs acc) fs acc =
  acc ++ (fs ≫= fun f => g f <$> xs).
Proof.
  revert acc. induction fs as [|f fs IH]; intros acc; csimpl.
  - by rewrite app_nil_r.
  - rewrite IH, append_loop, <- app_assoc. done.
Qed.

(** The nested loops build the list comprehension
    [[mk_solution f x for f in range(..) for x in range(..)]]. *)
Lemma enumerate_loops_bind :
  enumerate_loops fusion_min fusion_max xyz_min xyz_max =
  range fusion_min (fusion_max + 1) ≫= fun f =>
    mk_solution f <$> range xyz_min (xyz_max + 1).
Proof. unfold enumerate_loops. by rewrite nested_loop. Qed.

Lemma elem_of_range (a b k : Z) : k ∈ range a b <-> a <= k < b.
Proof. unfold range. rewrite elem_of_seqZ. lia. Qed.

Lemma length_range (a b : Z) : length (range a b) = Z.to_nat (b - a).
Proof. apply length_seqZ. Qed.

Lemma elem_of_enumerate_loops (r : solution) :
  r ∈ enumerate_loops fusion_min fusion_max xyz_min xyz_max <->
  fusion_min <= fusion r <= fusion_max /\ xyz_min <= xyz r <= xyz_max /\
  r = mk_solution (fusion r) (xyz r).
Proof.
  rewrite enumerate_loops_bind, list_elem_of_bind. split.
  - intros (f & Hr & Hf). apply list_elem_of_fmap in Hr as (x & -> & Hx).
    apply elem_of_range in Hf, Hx. simpl. split_and!; [lia..|done].
  - intros (Hf & Hx & Hr). exists (fusion r). split.
    + apply list_elem_of_fmap. exists (xyz r). split; [done|].
      apply elem_of_range. lia.
    + apply elem_of_range. lia.
Qed.

Lemma NoDup_enumerate_loops :
  NoDup (enumerate_loops fusion_min fusion_max xyz_min xyz_max).
Proof.
  rewrite enumerate_loops_bind. apply NoDup_bind.
  - intros f1 f2 r _ _ H1 H2.
    apply list_elem_of_fmap in H1 as (x1 & -> & _).
    apply list_elem_of_fmap in H2 as (x2 & E & _).
    by injection E.
  - intros f _. apply NoDup_fmap_2; [|apply NoDup_seqZ].
    intros x1 x2 E. by injection E.
  - apply NoDup_seqZ.
Qed.

Lemma length_bind_const {A B} (g : A -> list B) (n : nat) (l : list A) :
  (forall a, length (g a) = n) -> length (l ≫= g) = (length l * n)%nat.
Proof.
  intros Hg. induction l as [|a l IH]; csimpl; [done|].
  rewrite length_app, Hg, IH. lia.
Qed.

Lemma length_enumerate_loops :
  length (enumerate_loops fusion_min fusion_max xyz_min xyz_max) =
  (Z.to_nat (fusion_max + 1 - fusion_min) * Z.to_nat (xyz_max + 1 - xyz_min))%nat.
Proof.
  rewrite enumerate_loops_bind.
  rewrite (length_bind_const _ (Z.to_nat (xyz_max + 1 - xyz_min))).
  - by rewrite length_range.
  - intros f. by rewrite length_fmap, length_range.
Qed.

End Enumeration.

(** ** The sort *)

Lemma tuple_ltb_spec (r1 r2 : solution) :
  tuple_ltb (sort_key r1) (sort_key r2) = true <-> key_gt r2 r1.
Proof. unfold tuple_ltb, sort_key, key_gt. simpl. lia. Qed.

Lemma tuple_ltb_false (r1 r2 : solution) :
  tuple_ltb (sort_key r1) (sort_key r2) = false <-> key_ge r1 r2.
Proof.
  rewrite <- not_true_iff_false, tuple_ltb_spec.
  unfold key_gt, key_ge. lia.
Qed.

Lemma key_gt_ge (r1 r2 : solution) : key_gt r1 r2 -> key_ge r1 r2.
Proof. unfold key_gt, key_ge. lia. Qed.

#[global] Instance key_ge_trans : Transitive key_ge.
Proof. intros r1 r2 r3. unfold key_ge. lia. Qed.

Lemma insert_desc_perm (x : solution) (l : list solution) :
  insert_desc x l ≡ₚ x :: l.
Proof.
  induction l as [|y l IH]; simpl; [done|].
  destruct (tuple_ltb _ _); [|done].
  rewrite IH. apply perm_swap.
Qed.

Lemma sort_desc_perm (l : list solution) : sort_desc l ≡ₚ l.
Proof.
  induction l as [|x l IH]; simpl; [done|].
  by rewrite insert_desc_perm, IH.
Qed.

Lemma insert_desc_sorted (x : solution) (l : list solution) :
  StronglySorted key_ge l -> StronglySorted key_ge (insert_desc x l).
Proof.
  induction 1 as [|y l Hl IH Hy]; simpl.
  - repeat constructor.
  - destruct (tuple_ltb _ _) eqn:E.
    + constructor; [done|].
      rewrite insert_desc_perm. constructor; [|done].
      by apply key_gt_ge, tuple_ltb_spec.
    + apply tuple_ltb_false in E.
      constructor; [by constructor|].
      constructor; [done|].
      eapply Forall_impl; [exact Hy|]. intros z Hz. by etrans.
Qed.

Lemma sort_desc_sorted (l : list solution) : StronglySorted key_ge (sort_desc l).
Proof.
  induction l as [|x l IH]; simpl; [constructor|by apply insert_desc_sorted].
Qed.

Lemma solve_perm (fusion_min fusion_max xyz_min xyz_max : Z) :
  solve fusion_min fusion_max xyz_min xyz_max ≡ₚ
  enumerate_loops fusion_min fusion_max xyz_min xyz_max.
Proof. apply sort_desc_perm. Qed.

Lemma elem_of_solve (fusion_min fusion_max xyz_min xyz_max : Z) (r : solution) :
  r ∈ solve fusion_min fusion_max xyz_min xyz_max <->
  fusion_min <= fusion r <= fusion_max /\ xyz_min <= xyz r <= xyz_max /\
  r = mk_solution (fusion r) (xyz r).
Proof. rewrite solve_perm. apply elem_of_enumerate_loops. Qed.

Lemma NoDup_solve (fusion_min fusion_max xyz_min xyz_max : Z) :
  NoDup (solve fusion_min fusion_max xyz_min xyz_max).
Proof. rewrite solve_perm. apply NoDup_enumerate_loops. Qed.

Lemma filter_none {A} (P : A -> Prop) `{!forall a, Decision (P a)} (l : list A) :
  (forall y, y ∈ l -> ~ P y) -> filter P l = [].
Proof.
  induction l as [|y l IH]; intros Hnone; [done|].
  rewrite filter_cons_False by (apply Hnone; left).
  apply IH. intros z Hz. apply Hnone. by right.
Qed.

(** In a duplicate-free list, a property that singles out one member
    selects exactly that one position. *)
Lemma filter_unique {A} (P : A -> Prop) `{!forall a, Decision (P a)}
    (l : list A) (x : A) :
  NoDup l -> x ∈ l -> P x -> (forall y, y ∈ l -> P y -> y = x) ->
  filter P l = [x].
Proof.
  induction 1 as [|y l Hy Hl IH]; intros Hx HP Huniq.
  - by apply elem_of_nil in Hx.
  - apply elem_of_cons in Hx as [<-|Hx].
    + rewrite filter_cons_True by done. f_equal.
      apply filter_none. intros z Hz HPz.
      assert (z = x) as -> by (apply Huniq; [by right|done]). done.
    + rewrite filter_cons_False.
      * apply IH; [done..|]. intros z Hz. apply Huniq. by right.
      * intros HPy. assert (y = x) as -> by (apply Huniq; [left|done]). done.
Qed.

Lemma StronglySorted_lookup_lt {A} (R : relation A) (l : list A) (i j : nat) (a b : A) :
  StronglySorted R l -> (i < j)%nat -> l !! i = Some a -> l !! j = Some b -> R a b.
Proof.
  intros Hl. revert i j. induction Hl as [|x l Hl IH Hx]; intros i j Hij Hi Hj.
  - done.
  - destruct j as [|j]; [lia|]. simpl in Hj. destruct i as [|i]; simpl in Hi.
    + injection Hi as <-. rewrite Forall_forall in Hx.
      apply Hx. by eapply list_elem_of_lookup_2.
    + apply (IH i j); [lia|done..].
Qed.

(** Records of one run are told apart by their sort keys. *)
Lemma solve_key_inj (fusion_min fusion_max xyz_min xyz_max : Z) (r1 r2 : solution) :
  r1 ∈ solve fusion_min fusion_max xyz_min xyz_max ->
  r2 ∈ solve fusion_min fusion_max xyz_min xyz_max ->
  stars r1 = stars r2 -> xyz r1 = xyz r2 -> r1 = r2.
Proof.
  intros (_ & _ & E1)%elem_of_solve (_ & _ & E2)%elem_of_solve Hs Hx.
  destruct r1 as [s1 n1 x1 f1], r2 as [s2 n2 x2 f2].
  unfold mk_solution in *. simpl in *.
  injection E1 as ? ?. injection E2 as ? ?. f_equal; lia.
Qed.

(** ** Claims about the enumerator *)

(** C1: for valid bounds, [solve] returns
    [(fusion_max - fusion_min + 1) * (xyz_max - xyz_min + 1)] records;
    every in-range pair [(fusion, xyz)] is carried by exactly one
    record of the list; every record comes from an in-range pair and
    satisfies [stars = fusion + xyz] and [nb_cards = fusion + 2*xyz]. *)
Theorem solve_complete_and_exact (fusion_min fusion_max xyz_min xyz_max : Z) :
  valid_bounds fusion_min fusion_max xyz_min xyz_max ->
  let sols := solve fusion_min fusion_max xyz_min xyz_max in
  Z.of_nat (length sols) =
    (fusion_max - fusion_min + 1) * (xyz_max - xyz_min + 1) /\
  (forall f x, fusion_min <= f <= fusion_max -> xyz_min <= x <= xyz_max ->
     length (filter (fun r => fusion r = f /\ xyz r = x) sols) = 1%nat) /\
  (forall r, r ∈ sols ->
     fusion_min <= fusion r <= fusion_max /\ xyz_min <= xyz r <= xyz_max /\
     stars r = fusion r + xyz r /\ nb_cards r = fusion r + 2 * xyz r).
Proof.
  intros (Hf & Hx & _ & _) sols. split_and!.
  - unfold sols. rewrite solve_perm, length_enumerate_loops.
    rewrite Nat2Z.inj_mul, !Z2Nat.id by lia. ring.
  - intros f x Hfr Hxr.
    rewrite (filter_unique _ sols (mk_solution f x)); [done| | |done|].
    + apply NoDup_solve.
    + apply elem_of_solve. simpl. split_and!; [lia..|done].
    + intros r (_ & _ & ->)%elem_of_solve [<- <-]. done.
  - intros r (? & ? & ->)%elem_of_solve. simpl. lia.
Qed.

Lemma solve_complete_and_exact_witness :
  valid_bounds 1 2 1 2 /\
  Z.of_nat (length (solve 1 2 1 2)) = (2 - 1 + 1) * (2 - 1 + 1) /\
  length (filter (fun r => fusion r = 2 /\ xyz r = 1) (solve 1 2 1 2)) = 1%nat.
Proof.
  assert (valid_bounds 1 2 1 2) as Hv by (unfold valid_bounds; lia).
  destruct (solve_complete_and_exact 1 2 1 2 Hv) as (Hlen & Hone & _).
  split_and!; [exact Hv|exact Hlen|apply Hone; lia].
Defined.

(** C2: for valid bounds, the list returned by [solve] is in
    non-increasing order of [stars], and records with equal [stars]
    are in non-increasing order of [xyz]: whenever position [i] comes
    before position [j], the record at [i] has the larger-or-equal
    [stars] and, on equal [stars], the larger-or-equal [xyz]. *)
Theorem solve_sorted_desc (fusion_min fusion_max xyz_min xyz_max : Z)
    (i j : nat) (r1 r2 : solution) :
  valid_bounds fusion_min fusion_max xyz_min xyz_max ->
  (i < j)%nat ->
  solve fusion_min fusion_max xyz_min xyz_max !! i = Some r1 ->
  solve fusion_min fusion_max xyz_min xyz_max !! j = Some r2 ->
  stars r2 <= stars r1 /\ (stars r2 = stars r1 -> xyz r2 <= xyz r1).
Proof.
  intros _ Hij Hi Hj.
  assert (key_ge r1 r2) as Hge.
  { eapply StronglySorted_lookup_lt; [apply sort_desc_sorted|exact Hij|done..]. }
  unfold key_ge in Hge. lia.
Qed.

Lemma solve_sorted_desc_witness :
  stars (Solution 3 4 1 2) <= stars (Solution 3 5 2 1) /\
  (stars (Solution 3 4 1 2) = stars (Solution 3 5 2 1) ->
   xyz (Solution 3 4 1 2) <= xyz (Solution 3 5 2 1)).
Proof.
  apply (solve_sorted_desc 1 2 1 2 1 2).
  - unfold valid_bounds. lia.
  - lia.
  - reflexivity.
  - reflexivity.
Defined.

(** C5: every record produced by [solve] under valid bounds has
    [stars <= nb_cards]. *)
Theorem solve_stars_le_nb_cards (fusion_min fusion_max xyz_min xyz_max : Z)
    (r : solution) :
  valid_bounds fusion_min fusion_max xyz_min xyz_max ->
  r ∈ solve fusion_min fusion_max xyz_min xyz_max ->
  stars r <= nb_cards r.
Proof.
  intros (_ & _ & _ & Hx1) (_ & Hx & ->)%elem_of_solve. simpl. lia.
Qed.

Lemma solve_stars_le_nb_cards_witness :
  stars (Solution 3 5 2 1) <= nb_cards (Solution 3 5 2 1).
Proof.
  apply (solve_stars_le_nb_cards 1 2 1 2).
  - unfold valid_bounds. lia.
  - vm_compute. right. left.
Defined.

(** C8: in the output of [solve] the pair [(stars, xyz)] determines the
    record ([fusion = stars - xyz]); no two positions of the list share
    a key, the list is strictly descending in the key, and it is the
    only arrangement of the enumerated records in descending key order,
    whatever sorting procedure produces it. *)
Theorem solve_key_unique (fusion_min fusion_max xyz_min xyz_max : Z) :
  let sols := solve fusion_min fusion_max xyz_min xyz_max in
  (forall r, r ∈ sols -> fusion r = stars r - xyz r) /\
  (forall r1 r2, r1 ∈ sols -> r2 ∈ sols ->
     stars r1 = stars r2 -> xyz r1 = xyz r2 -> r1 = r2) /\
  NoDup (sort_key <$> sols) /\
  StronglySorted key_gt sols /\
  (forall l, l ≡ₚ enumerate_loops fusion_min fusion_max xyz_min xyz_max ->
     StronglySorted key_ge l -> l = sols).
Proof.
  intros sols.
  assert (forall r1 r2, r1 ∈ sols -> r2 ∈ sols ->
            stars r1 = stars r2 -> xyz r1 = xyz r2 -> r1 = r2) as Hinj.
  { intros r1 r2. apply solve_key_inj. }
  assert (NoDup (sort_key <$> sols)) as Hnd.
  { apply NoDup_fmap_2_strong; [|apply NoDup_solve].
    intros r1 r2 H1 H2 E. injection E as ? ?. by apply Hinj. }
  split_and!; [|done|done| |].
  - intros r (_ & _ & ->)%elem_of_solve. simpl. lia.
  - pose proof (sort_desc_sorted
      (enumerate_loops fusion_min fusion_max xyz_min xyz_max)) as Hs.
    fold (solve fusion_min fusion_max xyz_min xyz_max) in Hs. fold sols in Hs.
    pose proof (NoDup_solve fusion_min fusion_max xyz_min xyz_max) as Hn.
    fold sols in Hn. clear Hnd.
    induction Hs as [|x l Hl IH Hx]; [constructor|].
    apply NoDup_cons in Hn as [Hxl Hn].
    constructor.
    + apply IH; [|done]. intros r1 r2 ? ?. apply Hinj; by right.
    + rewrite Forall_forall in Hx |- *. intros y Hy.
      specialize (Hx y Hy). unfold key_ge in Hx. unfold key_gt.
      destruct (decide (xyz y = xyz x)) as [E|]; [|lia].
      destruct (decide (stars y = stars x)) as [E'|]; [|lia].
      assert (y = x) as -> by (apply Hinj; [by right|left|done..]). done.
  - intros l Hperm Hl.
    apply (StronglySorted_unique_strong key_ge); [|done|apply sort_desc_sorted|].
    + intros r1 r2 H1 H2 G1 G2. apply Hinj.
      * unfold sols. by rewrite solve_perm, <- Hperm.
      * done.
      * unfold key_ge in *. lia.
      * unfold key_ge in *. lia.
    + unfold sols. by rewrite solve_perm.
Qed.

Lemma solve_key_unique_witness :
  [Solution 4 6 2 2; Solution 3 5 2 1; Solution 3 4 1 2; Solution 2 3 1 1] =
  solve 1 2 1 2.
Proof.
  apply (solve_key_unique 1 2 1 2).
  - apply (sort_desc_perm (enumerate_loops 1 2 1 2)).
  - repeat constructor; unfold key_ge; simpl; lia.
Defined.

(** ** The worksheet operations *)

Lemma cells_ws_cell_fresh (ws : worksheet) (r c : Z) (v : value) (k : Z * Z) :
  cells ws !! (r, c) = None ->
  cells (ws_cell ws r c v) !! k =
  if decide ((r, c) = k) then Some (plain v) else cells ws !! k.
Proof.
  intros Hfresh. unfold ws_cell. simpl. rewrite lookup_insert, Hfresh. simpl.
  by destruct v.
Qed.

Lemma merged_cells_ws_cell (ws : worksheet) (r c : Z) (v : value) :
  merged_cells (ws_cell ws r c v) = merged_cells ws.
Proof. done. Qed.

Lemma merged_cells_write_row (ws : worksheet) (r : Z) (v : value) (sol : solution) :
  merged_cells (write_row ws r v sol) = merged_cells ws.
Proof. done. Qed.

(** Writing a row into untouched cells. *)
Lemma cells_write_row (ws : worksheet) (row : Z) (v1 : value) (sol : solution)
    (r c : Z) :
  (forall c', cells ws !! (row, c') = None) ->
  cells (write_row ws row v1 sol) !! (r, c) =
  if decide (r = row)
  then row_cells v1 (VInt (nb_cards sol)) (VInt (xyz sol)) (VInt (fusion sol)) c
  else cells ws !! (r, c).
Proof.
  intros Hfresh. unfold write_row.
  set (ws1 := ws_cell ws row 1 v1).
  set (ws2 := ws_cell ws1 row 2 (VInt (nb_cards sol))).
  set (ws3 := ws_cell ws2 row 3 (VInt (xyz sol))).
  assert (forall k, cells ws1 !! k =
            if decide ((row, 1) = k) then Some (plain v1) else cells ws !! k) as H1.
  { intros k. by apply cells_ws_cell_fresh. }
  assert (forall k, cells ws2 !! k =
            if decide ((row, 2) = k) then Some (plain (VInt (nb_cards sol)))
            else cells ws1 !! k) as H2.
  { intros k. apply cells_ws_cell_fresh.
    rewrite H1, decide_False by (intros [=]). done. }
  assert (forall k, cells ws3 !! k =
            if decide ((row, 3) = k) then Some (plain (VInt (xyz sol)))
            else cells ws2 !! k) as H3.
  { intros k. apply cells_ws_cell_fresh.
    rewrite H2, decide_False by (intros [=]).
    rewrite H1, decide_False by (intros [=]). done. }
  rewrite cells_ws_cell_fresh; last first.
  { rewrite H3, decide_False by (intros [=]).
    rewrite H2, decide_False by (intros [=]).
    rewrite H1, decide_False by (intros [=]). done. }
  rewrite H3, H2, H1. unfold row_cells.
  repeat case_decide; repeat case_bool_decide; simplify_eq; try done.
Qed.

Lemma lookup_blank_all (ks : list (Z * Z)) (m : gmap (Z * Z) cell) (k : Z * Z) :
  fold_right (fun k m => <[k := blank_cell]> m) m ks !! k =
  if decide (k ∈ ks) then Some blank_cell else m !! k.
Proof.
  induction ks as [|k' ks IH].
  - simpl fold_right. destruct (decide (k ∈ [])) as [Hin|_]; [|done].
    by apply elem_of_nil in Hin.
  - simpl fold_right. rewrite lookup_insert, IH.
    destruct (decide (k' = k)) as [->|Hne].
    + destruct (decide (k ∈ k :: ks)) as [_|Hnin]; [done|].
      exfalso. apply Hnin. left.
    + destruct (decide (k ∈ ks)) as [Hin|Hnin];
        destruct (decide (k ∈ k' :: ks)) as [Hin'|Hnin']; try done.
      * exfalso. apply Hnin'. by right.
      * apply elem_of_cons in Hin' as [?|?]; congruence.
Qed.

(** The cells of a column range below its top cell. *)
Lemma tail_range_coords_column (g e : Z) :
  g <= e ->
  tail (range_coords (CellRange g 1 e 1)) = (fun r => (r, 1)) <$> seqZ (g + 1) (e - g).
Proof.
  intros Hge. unfold range_coords, range. simpl.
  rewrite (seqZ_cons g) by lia. simpl.
  replace (Z.succ g) with (g + 1) by lia.
  replace (Z.pred (e + 1 - g)) with (e - g) by lia.
  generalize (seqZ (g + 1) (e - g)). intros l.
  induction l as [|x l IH]; simpl; [done|]. by rewrite IH.
Qed.

(** Merging a column range of column 1 blanks the cells below the top
    one and touches nothing else. *)
Lemma cells_merge_column (ws : worksheet) (g e r c : Z) :
  g <= e ->
  cells (merge_cells ws g 1 e 1) !! (r, c) =
  if decide (c = 1 /\ g < r <= e) then Some blank_cell else cells ws !! (r, c).
Proof.
  intros Hge. unfold merge_cells. simpl cells.
  rewrite tail_range_coords_column by done.
  rewrite lookup_blank_all.
  destruct (decide (c = 1 /\ g < r <= e)) as [[-> Hr]|Hn].
  - rewrite decide_True; [done|].
    apply list_elem_of_fmap. exists r. split; [done|]. apply elem_of_seqZ. lia.
  - rewrite decide_False; [done|].
    intros (r' & [= -> ->] & Hr')%list_elem_of_fmap.
    apply elem_of_seqZ in Hr'. apply Hn. lia.
Qed.

Lemma merged_cells_merge (ws : worksheet) (sr sc er ec : Z) :
  CellRange sr sc er ec ∉ merged_cells ws ->
  merged_cells (merge_cells ws sr sc er ec) =
  merged_cells ws ++ [CellRange sr sc er ec].
Proof. intros Hnin. unfold merge_cells. simpl. by rewrite decide_False. Qed.

(** The header row: four styled cells in row 1 and nothing else. *)
Lemma header_sheet_eq :
  header_sheet =
  Worksheet "Sheet1"
    (<[(1, 4) := header_cell "fusion"]>
       (<[(1, 3) := header_cell "xyz"]>
          (<[(1, 2) := header_cell "nb cards"]>
             (<[(1, 1) := header_cell "stars"]> ∅))))
    [].
Proof. vm_compute. reflexivity. Qed.

Lemma cells_header_sheet (r c : Z) :
  cells header_sheet !! (r, c) =
  if bool_decide (r = 1) then
    if bool_decide (1 <= c) then header_cell <$> headers !! Z.to_nat (c - 1)
    else None
  else None.
Proof.
  rewrite header_sheet_eq. simpl cells.
  case_bool_decide as Hr.
  - subst r.
    destruct (decide (c = 1)) as [->|?]; [done|].
    destruct (decide (c = 2)) as [->|?]; [done|].
    destruct (decide (c = 3)) as [->|?]; [done|].
    destruct (decide (c = 4)) as [->|?]; [done|].
    rewrite !lookup_insert_ne, lookup_empty by congruence.
    case_bool_decide; [|done].
    symmetry. apply fmap_None, lookup_ge_None. simpl. lia.
  - rewrite !lookup_insert_ne, lookup_empty by congruence. done.
Qed.

Lemma merged_cells_header_sheet : merged_cells header_sheet = [].
Proof. reflexivity. Qed.

Lemma cells_header_sheet_below (r c : Z) : 2 <= r -> cells header_sheet !! (r, c) = None.
Proof.
  intros Hr. rewrite cells_header_sheet. rewrite bool_decide_eq_false_2; [done|lia].
Qed.

(** ** Enumerated rows *)

Lemma enumerate_cons {A} (start : Z) (x : A) (l : list A) :
  enumerate start (x :: l) = (start, x) :: enumerate (start + 1) l.
Proof.
  unfold enumerate. simpl length. rewrite seqZ_cons by lia. simpl.
  repeat f_equal; lia.
Qed.

Lemma lookup_enumerate {A} (start : Z) (l : list A) (n : nat) (x : A) :
  l !! n = Some x -> enumerate start l !! n = Some (start + Z.of_nat n, x).
Proof.
  revert start n. induction l as [|y l IH]; intros start n Hn; [done|].
  rewrite enumerate_cons. destruct n as [|n]; simpl in *.
  - injection Hn as ->. do 2 f_equal. lia.
  - rewrite (IH _ _ Hn). do 2 f_equal. lia.
Qed.

Lemma length_enumerate {A} (start : Z) (l : list A) :
  length (enumerate start l) = length l.
Proof.
  revert start. induction l as [|y l IH]; intros start; [done|].
  rewrite enumerate_cons. simpl. by rewrite IH.
Qed.

(** ** One iteration of the data loop, case by case *)

Lemma data_row_first (st : loop_state) (row_idx : Z) (sol : solution) :
  current_stars st = None ->
  data_row st row_idx sol =
  inr (LoopState (write_row (ls_ws st) row_idx (VInt (stars sol)) sol)
                 (Some (stars sol)) (Some row_idx)).
Proof.
  intros Hcur. unfold data_row. rewrite Hcur.
  rewrite decide_True by done. done.
Qed.

Lemma data_row_new_group (st : loop_state) (row_idx : Z) (sol : solution) (s g : Z) :
  current_stars st = Some s -> group_start_row st = Some g -> s <> stars sol ->
  data_row st row_idx sol =
  inr (LoopState
         (write_row (if row_idx - 1 >? g
                     then merge_cells (ls_ws st) g 1 (row_idx - 1) 1
                     else ls_ws st)
                    row_idx (VInt (stars sol)) sol)
         (Some (stars sol)) (Some row_idx)).
Proof.
  intros Hcur Hg Hne. unfold data_row. rewrite Hcur, Hg.
  rewrite decide_True by congruence.
  by destruct (row_idx - 1 >? g).
Qed.

Lemma data_row_same_group (st : loop_state) (row_idx : Z) (sol : solution) :
  current_stars st = Some (stars sol) ->
  data_row st row_idx sol =
  inr (LoopState (write_row (ls_ws st) row_idx VNone sol)
                 (current_stars st) (group_start_row st)).
Proof.
  intros Hcur. unfold data_row. rewrite Hcur.
  rewrite decide_False by (intros ?; congruence). done.
Qed.

Lemma data_rows_snoc (rows : list (Z * solution)) (row_idx : Z) (sol : solution)
    (st : loop_state) :
  data_rows (rows ++ [(row_idx, sol)]) st =
  rbind (data_rows rows st) (fun st' => data_row st' row_idx sol).
Proof. unfold data_rows. by rewrite fold_left_app. Qed.

(** ** The data loop *)

Lemma row_of_inj (i j : nat) : row_of i = row_of j -> i = j.
Proof. unfold row_of. lia. Qed.

(** Two groups that reach the same position opened at the same one. *)
Lemma run_start_unique (ss : list Z) (i i0 m : nat) :
  starts_group ss i = true -> starts_group ss i0 = true ->
  (i <= m)%nat -> (i0 <= m)%nat ->
  (forall k, (i <= k <= m)%nat -> ss !! k = ss !! i) ->
  (forall k, (i0 <= k <= m)%nat -> ss !! k = ss !! i0) ->
  i = i0.
Proof.
  intros Hi Hi0 Him Hi0m Hc Hc0.
  destruct (lt_eq_lt_dec i i0) as [[Hlt| ->]|Hlt]; [|done|].
  - destruct i0 as [|i0']; [lia|]. simpl in Hi0.
    apply bool_decide_eq_true in Hi0. exfalso. apply Hi0.
    rewrite (Hc i0'), (Hc (S i0')) by lia. done.
  - destruct i as [|i']; [lia|]. simpl in Hi.
    apply bool_decide_eq_true in Hi. exfalso. apply Hi.
    rewrite (Hc0 i'), (Hc0 (S i')) by lia. done.
Qed.

Section DataLoop.

Variable solutions : list solution.

Local Notation "'ss'" := (stars <$> solutions).

Lemma lookup_enumerate_row (n : nat) (sol : solution) :
  solutions !! n = Some sol ->
  enumerate 2 solutions !! n = Some (row_of n, sol).
Proof.
  intros Hsol. rewrite (lookup_enumerate 2 _ _ _ Hsol).
  unfold row_of. do 2 f_equal. lia.
Qed.

Lemma spec_sheet_cell_row (n : nat) (sol : solution) (c : Z) :
  solutions !! n = Some sol ->
  spec_sheet_cell solutions (row_of n) c =
  row_cells (stars_cell_value solutions n sol)
            (VInt (nb_cards sol)) (VInt (xyz sol)) (VInt (fusion sol)) c.
Proof.
  intros Hsol. unfold spec_sheet_cell.
  rewrite bool_decide_eq_false_2 by (unfold row_of; lia).
  rewrite bool_decide_eq_true_2 by (unfold row_of; lia).
  replace (Z.to_nat (row_of n - 2)) with n by (unfold row_of; lia).
  by rewrite Hsol.
Qed.

(** Writing row [n + 2] extends the described part of the sheet. *)
Lemma cells_step (ws : worksheet) (n : nat) (sol : solution) (v1 : value) :
  (forall r c, cells ws !! (r, c) =
     if bool_decide (2 <= r < row_of n) then spec_sheet_cell solutions r c
     else cells header_sheet !! (r, c)) ->
  solutions !! n = Some sol ->
  v1 = stars_cell_value solutions n sol ->
  forall r c, cells (write_row ws (row_of n) v1 sol) !! (r, c) =
    if bool_decide (2 <= r < row_of (S n)) then spec_sheet_cell solutions r c
    else cells header_sheet !! (r, c).
Proof.
  intros Hws Hsol -> r c.
  rewrite cells_write_row; last first.
  { intros c'. rewrite Hws, bool_decide_eq_false_2 by lia.
    apply cells_header_sheet_below. unfold row_of. lia. }
  destruct (decide (r = row_of n)) as [->|Hne].
  - rewrite bool_decide_eq_true_2 by (unfold row_of; lia).
    by rewrite (spec_sheet_cell_row _ _ _ Hsol).
  - rewrite Hws.
    repeat case_bool_decide; try done; unfold row_of in *; lia.
Qed.

(** Merging a finished group rewrites only cells that are blank
    already: the rows of the group after its first. *)
Lemma cells_merge_group (ws : worksheet) (i0 m : nat) :
  (m < length solutions)%nat -> (i0 <= m)%nat ->
  (forall k, (i0 <= k <= m)%nat -> ss !! k = ss !! i0) ->
  (forall r c, cells ws !! (r, c) =
     if bool_decide (2 <= r < row_of (S m)) then spec_sheet_cell solutions r c
     else cells header_sheet !! (r, c)) ->
  forall r c, cells (merge_cells ws (row_of i0) 1 (row_of m) 1) !! (r, c) =
    if bool_decide (2 <= r < row_of (S m)) then spec_sheet_cell solutions r c
    else cells header_sheet !! (r, c).
Proof.
  intros Hm Hi0 Hconst Hws r c.
  rewrite cells_merge_column by (unfold row_of; lia).
  destruct (decide (c = 1 /\ row_of i0 < r <= row_of m)) as [[-> Hr]|_];
    [|apply Hws].
  rewrite bool_decide_eq_true_2 by (unfold row_of in *; lia).
  assert (exists k', r = row_of (S k') /\ (i0 <= k' < m)%nat) as (k' & -> & Hk').
  { exists (Z.to_nat (r - 3)). unfold row_of in *. lia. }
  destruct (lookup_lt_is_Some_2 solutions (S k')) as [sol Hsol]; [lia|].
  rewrite (spec_sheet_cell_row _ _ _ Hsol).
  unfold row_cells, stars_cell_value. simpl.
  rewrite bool_decide_eq_false_2; [done|].
  intros Hne. apply Hne. rewrite (Hconst k'), (Hconst (S k')) by lia. done.
Qed.

(** The loop runs to the end of any prefix without raising, and the
    invariant holds there. *)
Lemma data_rows_prefix (n : nat) :
  (n <= length solutions)%nat ->
  exists st,
    data_rows (take n (enumerate 2 solutions)) (LoopState header_sheet None None)
      = inr st /\
    loop_inv solutions n st.
Proof.
  induction n as [|n IH]; intros Hn.
  { eexists. split; [reflexivity|].
    split; cbn [ls_ws current_stars group_start_row].
    - done.
    - intros r. rewrite merged_cells_header_sheet. split.
      + by intros ?%elem_of_nil.
      + intros (i & j & _ & _ & ? & _). lia.
    - rewrite merged_cells_header_sheet. constructor.
    - intros r c. rewrite bool_decide_eq_false_2; [done|]. unfold row_of. lia. }
  destruct IH as (st & Hrun & [Hgroup Hmerged Hnodup Hcells]); [lia|].
  destruct (lookup_lt_is_Some_2 solutions n) as [sol Hsol]; [lia|].
  assert (ss !! n = Some (stars sol)) as Hsn.
  { by rewrite list_lookup_fmap, Hsol. }
  rewrite (take_S_r _ _ _ (lookup_enumerate_row _ _ Hsol)).
  rewrite data_rows_snoc, Hrun. simpl rbind.
  destruct n as [|m].
  - (* the first row opens the first group *)
    destruct Hgroup as [Hcur Hg].
    rewrite (data_row_first _ _ _ Hcur).
    eexists. split; [reflexivity|]. split; simpl ls_ws.
    + simpl. split; [done|]. exists 0%nat. split_and!; [done|lia|done|].
      intros k Hk. by replace k with 0%nat by lia.
    + intros r. rewrite merged_cells_write_row, Hmerged.
      split; intros (i & j & _ & ? & ? & _); lia.
    + by rewrite merged_cells_write_row.
    + by apply cells_step.
  - destruct Hgroup as (Hcur & i0 & Hg & Hi0 & Hstart & Hconst).
    destruct (lookup_lt_is_Some_2 solutions m) as [sol' Hsol']; [lia|].
    assert (ss !! m = Some (stars sol')) as Hsm.
    { by rewrite list_lookup_fmap, Hsol'. }
    rewrite Hsm in Hcur.
    destruct (decide (stars sol' = stars sol)) as [Heq|Hneq].
    + (* same value: the group goes on *)
      rewrite Heq in Hcur, Hsm.
      rewrite (data_row_same_group _ _ _ Hcur).
      eexists. split; [reflexivity|]. split; simpl ls_ws.
      * simpl. split; [by rewrite Hcur|].
        exists i0. split_and!; [done|lia|done|].
        intros k Hk. destruct (decide (k = S m)) as [->|?].
        -- rewrite Hsn, <- Hsm. apply Hconst. lia.
        -- apply Hconst. lia.
      * intros r. rewrite merged_cells_write_row, Hmerged. split.
        -- intros (i & j & ? & ? & ? & ?). exists i, j. split_and!; [done|done|lia|done].
        -- intros (i & j & ? & ? & Hj & Hrun'). exists i, j.
           split_and!; [done|done| |done].
           destruct (decide (j = m)) as [->|?]; [|lia].
           destruct Hrun' as (_ & _ & _ & Hend). congruence.
      * by rewrite merged_cells_write_row.
      * apply cells_step; [done..|].
        unfold stars_cell_value. simpl. rewrite bool_decide_eq_false_2; [done|].
        intros Hne. congruence.
    + (* another value: the group is closed and a new one opens *)
      rewrite (data_row_new_group _ _ _ _ _ Hcur Hg Hneq).
      replace (row_of (S m) - 1) with (row_of m) by (unfold row_of; lia).
      assert (starts_group ss (S m) = true) as Hstart'.
      { simpl. apply bool_decide_eq_true_2. rewrite Hsn, Hsm. congruence. }
      assert (forall i, (i <= m)%nat -> starts_group ss i = true ->
                (forall k, (i <= k <= m)%nat -> ss !! k = ss !! i) -> i = i0)
        as Huniq.
      { intros i Hi Hs Hc. by apply (run_start_unique ss i i0 m). }
      assert (maximal_run ss i0 m) as Hrun0.
      { split; [rewrite length_fmap; lia|]. split; [done|]. split; [done|].
        rewrite Hsn, Hsm. congruence. }
      destruct (Z.gtb_spec (row_of m) (row_of i0)) as [Hgt|Hle].
      * (* the closed group spans several rows: it is merged *)
        assert (i0 < m)%nat as Hlt by (unfold row_of in Hgt; lia).
        assert (CellRange (row_of i0) 1 (row_of m) 1 ∉ merged_cells (ls_ws st))
          as Hfresh.
        { rewrite Hmerged. intros (i & j & [= _ Hj] & _ & ? & _).
          apply row_of_inj in Hj. lia. }
        eexists. split; [reflexivity|]. split; cbn [ls_ws current_stars group_start_row].
        -- split; [by rewrite Hsn|]. exists (S m). split_and!; [done|lia|done|].
           intros k Hk. by replace k with (S m) by lia.
        -- intros r. rewrite merged_cells_write_row, merged_cells_merge by done.
           rewrite elem_of_app, list_elem_of_singleton, Hmerged. split.
           ++ intros [(i & j & ? & ? & ? & ?)| ->].
              ** exists i, j. split_and!; [done|done|lia|done].
              ** exists i0, m. split_and!; [done|done|lia|done].
           ++ intros (i & j & -> & Hij & Hj & Hrun').
              destruct (decide (j = m)) as [->|?].
              ** right. destruct Hrun' as (? & Hc & Hs & _).
                 by rewrite (Huniq i) by (done || lia).
              ** left. exists i, j. split_and!; [done|done|lia|done].
        -- rewrite merged_cells_write_row, merged_cells_merge by done.
           apply NoDup_app. split_and!; [done| |apply NoDup_singleton].
           intros r Hr ->%list_elem_of_singleton. done.
        -- apply cells_step; [|done|].
           ++ apply cells_merge_group; [lia|lia|done|done].
           ++ unfold stars_cell_value. by rewrite Hstart'.
      * (* the closed group is a single row: nothing to merge *)
        assert (i0 = m) as -> by (unfold row_of in Hle; lia).
        eexists. split; [reflexivity|]. split; cbn [ls_ws current_stars group_start_row].
        -- split; [by rewrite Hsn|]. exists (S m). split_and!; [done|lia|done|].
           intros k Hk. by replace k with (S m) by lia.
        -- intros r. rewrite merged_cells_write_row, Hmerged. split.
           ++ intros (i & j & ? & ? & ? & ?).
              exists i, j. split_and!; [done|done|lia|done].
           ++ intros (i & j & -> & Hij & Hj & Hrun').
              exists i, j. split_and!; [done|done| |done].
              destruct (decide (j = m)) as [->|?]; [|lia].
              destruct Hrun' as (? & Hc & Hs & _).
              assert (i = m) by (apply Huniq; done || lia). lia.
        -- by rewrite merged_cells_write_row.
        -- apply cells_step; [done..|].
           unfold stars_cell_value. by rewrite Hstart'.
Qed.

End DataLoop.

(** ** The finished sheet *)

(** [build_sheet] never raises; its cells are those of the contract and
    its merged ranges are the maximal runs of two or more rows. *)
Lemma build_sheet_correct (solutions : list solution) :
  exists ws,
    build_sheet solutions = inr ws /\
    (forall r c, cells ws !! (r, c) = spec_sheet_cell solutions r c) /\
    (forall r, r ∈ merged_cells ws <->
       exists i j : nat,
         r = CellRange (row_of i) 1 (row_of j) 1 /\ (i < j)%nat /\
         maximal_run (stars <$> solutions) i j) /\
    NoDup (merged_cells ws).
Proof.
  destruct (data_rows_prefix solutions (length solutions)) as
    (st & Hrun & [Hgroup Hmerged Hnodup Hcells]); [lia|].
  rewrite take_ge in Hrun by (rewrite length_enumerate; lia).
  unfold build_sheet. fold header_sheet. rewrite Hrun. simpl rbind.
  assert (forall ws' : worksheet,
            (forall r c, cells ws' !! (r, c) =
               if bool_decide (2 <= r < row_of (length solutions))
               then spec_sheet_cell solutions r c
               else cells header_sheet !! (r, c)) ->
            forall r c, cells ws' !! (r, c) = spec_sheet_cell solutions r c)
    as Hall.
  { intros ws' Hws r c. rewrite Hws. case_bool_decide as Hr; [done|].
    rewrite cells_header_sheet. unfold spec_sheet_cell.
    case_bool_decide; [done|]. case_bool_decide; [|done].
    rewrite lookup_ge_None_2; [done|]. unfold row_of in Hr. lia. }
  unfold close_last_group.
  destruct (length solutions) as [|m] eqn:Hlen.
  - destruct Hgroup as [_ ->].
    eexists. split; [reflexivity|]. split_and!; [by apply Hall| |done].
    intros r. rewrite Hmerged. split.
    + intros (i & j & _ & _ & ? & _). lia.
    + intros (i & j & _ & _ & [_ Hj] & _). rewrite length_fmap, Hlen in Hj. lia.
  - destruct Hgroup as (Hcur & i0 & -> & Hi0 & Hstart & Hconst).
    replace (Z.of_nat (S m) + 1) with (row_of m) by (unfold row_of; lia).
    destruct (lookup_lt_is_Some_2 solutions m) as [sol Hsol]; [lia|].
    assert ((stars <$> solutions) !! m = Some (stars sol)) as Hsm.
    { by rewrite list_lookup_fmap, Hsol. }
    assert ((stars <$> solutions) !! S m = None) as Hend.
    { apply lookup_ge_None_2. rewrite length_fmap. lia. }
    assert (maximal_run (stars <$> solutions) i0 m) as Hrun0.
    { split; [rewrite length_fmap; lia|]. split; [done|]. split; [done|].
      rewrite Hend, Hsm. done. }
    assert (forall i, (i <= m)%nat -> maximal_run (stars <$> solutions) i m -> i = i0)
      as Huniq.
    { intros i Hi (_ & Hc & Hs & _).
      by apply (run_start_unique (stars <$> solutions) i i0 m). }
    destruct (Z.gtb_spec (row_of m) (row_of i0)) as [Hgt|Hle].
    + assert (i0 < m)%nat as Hlt by (unfold row_of in Hgt; lia).
      assert (CellRange (row_of i0) 1 (row_of m) 1 ∉ merged_cells (ls_ws st))
        as Hfresh.
      { rewrite Hmerged. intros (i & j & [= _ Hj] & _ & ? & _).
        apply row_of_inj in Hj. lia. }
      eexists. split; [reflexivity|]. split_and!.
      * apply Hall. apply cells_merge_group; [lia|lia|done|done].
      * intros r. rewrite merged_cells_merge by done.
        rewrite elem_of_app, list_elem_of_singleton, Hmerged. split.
        -- intros [(i & j & ? & ? & ? & ?)| ->]; [by exists i, j|by exists i0, m].
        -- intros (i & j & -> & Hij & Hrun').
           destruct (decide (j = m)) as [->|?].
           ++ right. by rewrite (Huniq i) by (done || lia).
           ++ left. exists i, j. split_and!; [done|done| |done].
              destruct Hrun' as ([_ Hj] & _). rewrite length_fmap in Hj. lia.
      * rewrite merged_cells_merge by done.
        apply NoDup_app. split_and!; [done| |apply NoDup_singleton].
        intros r Hr ->%list_elem_of_singleton. done.
    + assert (i0 = m) as -> by (unfold row_of in Hle; lia).
      eexists. split; [reflexivity|]. split_and!; [by apply Hall| |done].
      intros r. rewrite Hmerged. split.
      * intros (i & j & ? & ? & ? & ?). by exists i, j.
      * intros (i & j & -> & Hij & Hrun').
        exists i, j. split_and!; [done|done| |done].
        destruct (decide (j = m)) as [->|?].
        -- assert (i = m) by (apply Huniq; done || lia). lia.
        -- destruct Hrun' as ([_ Hj] & _). rewrite length_fmap in Hj. lia.
Qed.

(** ** Runs of the renderer *)

Lemma build_sheet_total (solutions : list solution) :
  exists ws, build_sheet solutions = inr ws.
Proof. destruct (build_sheet_correct solutions) as (ws & Hws & _). eauto. Qed.


(** A path with a directory part that can be made: the run succeeds,
    the directory exists afterwards and the sheet is in the file. *)
Lemma generate_excel_ok (solutions : list solution) (path : string) (w : world)
    (ws : worksheet) :
  build_sheet solutions = inr ws ->
  os_path_dirname path <> ""%string ->
  files w !! os_path_dirname path = None ->
  path ∉ dirs w -> path <> os_path_dirname path ->
  generate_excel solutions path w =
  (World ({[os_path_dirname path]} ∪ dirs w) (<[path := ws]> (files w))
         (trace w ++ [EvGenerateExcel solutions path;
                      EvMakedirs (os_path_dirname path);
                      EvSave path;
                      EvPrint ("Saved: " ++ path)]),
   inr tt).
Proof.
  intros Hws Hdir Hfile Hpath Hne.
  unfold generate_excel, os_makedirs, wb_save, print, bind, log, lift. simpl.
  rewrite Hws. simpl.
  rewrite (bool_decide_eq_false_2 (os_path_dirname path = ""%string)) by done.
  rewrite bool_decide_eq_false_2 by (rewrite Hfile; by intros [? ?]).
  simpl.
  rewrite (bool_decide_eq_false_2 (path ∈ _))
    by (rewrite elem_of_union, elem_of_singleton; by intros [?|?]).
  rewrite bool_decide_eq_true_2
    by (apply elem_of_union_l; by apply elem_of_singleton).
  simpl. by rewrite <- !app_assoc.
Qed.

(** Whenever the renderer returns normally, the file at the output path
    holds the built sheet. *)
Lemma generate_excel_saved (solutions : list solution) (path : string)
    (w w' : world) (ws : worksheet) :
  build_sheet solutions = inr ws ->
  generate_excel solutions path w = (w', inr tt) ->
  files w' !! path = Some ws /\ os_path_dirname path ∈ dirs w' /\
  os_path_dirname path <> ""%string.
Proof.
  intros Hws.
  unfold generate_excel, os_makedirs, wb_save, print, bind, log, lift. simpl.
  rewrite Hws. simpl.
  repeat (case_bool_decide; simpl); intros [= <-]; simpl.
  all: split_and!; [apply lookup_insert_eq|set_solver|done].
Qed.

(** The events of a run of the renderer start with its own call. *)
Lemma generate_excel_trace (solutions : list solution) (path : string) (w : world) :
  exists rest,
    trace (generate_excel solutions path w).1 =
    trace w ++ EvGenerateExcel solutions path :: rest.
Proof.
  destruct (build_sheet_total solutions) as [ws Hws].
  unfold generate_excel, os_makedirs, wb_save, print, bind, log, lift. simpl.
  rewrite Hws. simpl.
  repeat (case_bool_decide; simpl); rewrite <- ?app_assoc; simpl; eauto.
Qed.

(** A normal return tells how the run went. *)
Lemma generate_excel_ok_inv (solutions : list solution) (path : string)
    (w w' : world) :
  generate_excel solutions path w = (w', inr tt) ->
  os_path_dirname path <> ""%string /\
  files w !! os_path_dirname path = None /\
  (path ∉ dirs w) /\ path <> os_path_dirname path.
Proof.
  destruct (build_sheet_total solutions) as [ws Hws].
  unfold generate_excel, os_makedirs, wb_save, print, bind, log, lift. simpl.
  rewrite Hws. simpl.
  repeat (case_bool_decide; simpl); intros [= <-].
  all: split_and!; [done| | |].
  all: try (apply eq_None_not_Some; done).
  all: try match goal with
           | Hn : ?p ∉ {[ ?d ]} ∪ _ |- _ =>
               rewrite elem_of_union, elem_of_singleton in Hn; naive_solver
           end.
Qed.

(** The four ways a run of the renderer can go. *)
Lemma generate_excel_cases (solutions : list solution) (path : string) (w : world) :
  let d := os_path_dirname path in
  let t := trace w ++ [EvGenerateExcel solutions path; EvMakedirs d] in
  exists ws, build_sheet solutions = inr ws /\
    (generate_excel solutions path w =
       (World (dirs w) (files w) t, inl (FileNotFoundError d)) \/
     generate_excel solutions path w =
       (World (dirs w) (files w) t, inl (FileExistsError d)) \/
     generate_excel solutions path w =
       (World ({[d]} ∪ dirs w) (files w) (t ++ [EvSave path]),
        inl (IsADirectoryError path)) \/
     generate_excel solutions path w =
       (World ({[d]} ∪ dirs w) (<[path := ws]> (files w))
              (t ++ [EvSave path; EvPrint ("Saved: " ++ path)]),
        inr tt)).
Proof.
  intros d t. destruct (build_sheet_total solutions) as [ws Hws].
  exists ws. split; [done|].
  unfold generate_excel, os_makedirs, wb_save, print, bind, log, lift. simpl.
  rewrite Hws. simpl. fold d.
  case_bool_decide as Hd; simpl.
  { left. subst t. by rewrite <- app_assoc. }
  case_bool_decide as Hf; simpl.
  { right. left. subst t. by rewrite <- app_assoc. }
  case_bool_decide as Hp; simpl.
  { right. right. left. subst t. by rewrite <- !app_assoc. }
  rewrite bool_decide_eq_true_2
    by (apply elem_of_union_l; by apply elem_of_singleton).
  simpl. right. right. right. subst t. by rewrite <- !app_assoc.
Qed.

(** ** Paths *)

Lemma rstrip_sep_empty (s : string) :
  rstrip_sep s = ""%string <-> all_sep s = true.
Proof.
  induction s as [|c s IH]; simpl; [done|].
  destruct (rstrip_sep s) eqn:E.
  - destruct (is_sep c); simpl; [|done].
    split; [intros _; by apply IH|done].
  - split; [done|]. intros [_ Hs]%andb_true_iff.
    apply IH in Hs. done.
Qed.

Lemma dirname_empty (p : string) :
  os_path_dirname p = ""%string <-> head_to_last_sep p = ""%string.
Proof.
  unfold os_path_dirname. split.
  - case_bool_decide as Hh; simpl; [done|].
    destruct (all_sep (head_to_last_sep p)) eqn:E; simpl; [done|].
    intros Hr%rstrip_sep_empty. congruence.
  - intros ->. done.
Qed.


(** ** Maximal runs *)

(** Every position has a group opening at or before it. *)
Lemma run_start_exists (ss : list Z) (k : nat) :
  exists i, (i <= k)%nat /\ starts_group ss i = true /\
    forall k', (i <= k' <= k)%nat -> ss !! k' = ss !! i.
Proof.
  induction k as [|k IH].
  - exists 0%nat. split_and!; [lia|done|]. intros k' ?. by replace k' with 0%nat by lia.
  - destruct (decide (ss !! k = ss !! S k)) as [Heq|Hne].
    + destruct IH as (i & Hi & Hs & Hc). exists i. split_and!; [lia|done|].
      intros k' Hk'. destruct (decide (k' = S k)) as [->|?].
      * rewrite <- Heq. apply Hc. lia.
      * apply Hc. lia.
    + exists (S k). split_and!; [lia| |].
      * simpl. by apply bool_decide_eq_true_2.
      * intros k' ?. by replace k' with (S k) by lia.
Qed.

(** Every position of the list has a group ending at or after it. *)
Lemma run_end_exists (ss : list Z) (d k : nat) :
  (k + d = length ss)%nat -> (0 < d)%nat ->
  exists j, (k <= j < length ss)%nat /\ ss !! S j <> ss !! j /\
    forall k', (k <= k' <= j)%nat -> ss !! k' = ss !! k.
Proof.
  revert k. induction d as [|d IH]; intros k Hk Hd; [lia|].
  destruct (decide (ss !! S k = ss !! k)) as [Heq|Hne].
  - destruct d as [|d'].
    { exfalso. rewrite (lookup_ge_None_2 ss (S k)) in Heq by lia.
      destruct (lookup_lt_is_Some_2 ss k) as [x Hx]; [lia|]. congruence. }
    destruct (IH (S k)) as (j & Hj & Hend & Hc); [lia|lia|].
    exists j. split_and!; [lia|lia|done|].
    intros k' Hk'. destruct (decide (k' = k)) as [->|?]; [done|].
    rewrite <- Heq. apply Hc. lia.
  - exists k. split_and!; [lia|lia|done|].
    intros k' ?. by replace k' with k by lia.
Qed.

(** The maximal runs cover the list: every position lies in one. *)
Lemma maximal_run_exists (ss : list Z) (k : nat) :
  (k < length ss)%nat ->
  exists i j, (i <= k <= j)%nat /\ maximal_run ss i j.
Proof.
  intros Hk.
  destruct (run_start_exists ss k) as (i & Hi & Hs & Hci).
  destruct (run_end_exists ss (length ss - k) k) as (j & Hj & Hend & Hcj); [lia|lia|].
  exists i, j. split; [lia|]. split; [lia|]. split; [|done].
  intros k' Hk'. destruct (decide (k' <= k)%nat).
  - apply Hci. lia.
  - rewrite Hcj by lia. apply Hci. lia.
Qed.

(** Inside a maximal run only the first position opens a group. *)
Lemma starts_group_in_run (ss : list Z) (i j k : nat) :
  maximal_run ss i j -> (i <= k <= j)%nat ->
  starts_group ss k = bool_decide (k = i).
Proof.
  intros (_ & Hc & Hs & _) Hk.
  destruct (decide (k = i)) as [->|Hne].
  - by rewrite bool_decide_eq_true_2.
  - rewrite (bool_decide_eq_false_2 (k = i)) by done.
    destruct k as [|k']; [lia|]. simpl.
    apply bool_decide_eq_false_2. intros Hd. apply Hd.
    rewrite (Hc k'), (Hc (S k')) by lia. done.
Qed.

(** ** Claims about the renderer *)

(** C3: for every solution sequence (in particular every sorted one),
    the sheet [generate_excel] builds and saves has, in column 1, the
    stars value on the first row of each maximal contiguous run of
    equal stars values and a blank cell on every other row of the run;
    every data row lies in such a run; the merged ranges are exactly
    the column-1 row ranges of the maximal runs of two or more rows,
    each merged once, and no single-row range is merged. *)
Theorem generate_excel_stars_groups (solutions : list solution) :
  exists ws,
    build_sheet solutions = inr ws /\
    (forall path w w',
       generate_excel solutions path w = (w', inr tt) ->
       files w' !! path = Some ws) /\
    (forall k, (k < length solutions)%nat ->
       exists i j, (i <= k <= j)%nat /\ maximal_run (stars <$> solutions) i j) /\
    (forall i j, maximal_run (stars <$> solutions) i j ->
       (exists s, (stars <$> solutions) !! i = Some s /\
                  cells ws !! (row_of i, 1) = Some (plain (VInt s))) /\
       (forall k, (i < k <= j)%nat ->
                  cells ws !! (row_of k, 1) = Some (plain VNone))) /\
    (forall r, r ∈ merged_cells ws <->
       exists i j : nat,
         r = CellRange (row_of i) 1 (row_of j) 1 /\ (i < j)%nat /\
         maximal_run (stars <$> solutions) i j) /\
    NoDup (merged_cells ws) /\
    (forall i : nat, CellRange (row_of i) 1 (row_of i) 1 ∉ merged_cells ws).
Proof.
  destruct (build_sheet_correct solutions) as (ws & Hws & Hcells & Hmerged & Hnodup).
  exists ws. split_and!; [done| | | |done|done|].
  - intros path w w' Hrun. by apply (generate_excel_saved solutions path w w' ws).
  - intros k Hk. apply maximal_run_exists. by rewrite length_fmap.
  - intros i j Hrun.
    assert (forall k, (i <= k <= j)%nat ->
              exists sol, solutions !! k = Some sol /\
                (stars <$> solutions) !! i = Some (stars sol) /\
                cells ws !! (row_of k, 1) =
                Some (plain (if bool_decide (k = i) then VInt (stars sol) else VNone)))
      as Hrow.
    { intros k Hk. pose proof Hrun as ([_ Hj] & Hc & _).
      rewrite length_fmap in Hj.
      destruct (lookup_lt_is_Some_2 solutions k) as [sol Hsol]; [lia|].
      exists sol. split; [done|]. split.
      - rewrite <- (Hc k) by lia. by rewrite list_lookup_fmap, Hsol.
      - rewrite Hcells, (spec_sheet_cell_row _ _ _ _ Hsol).
        unfold row_cells, stars_cell_value. simpl.
        by rewrite (starts_group_in_run _ i j k). }
    split.
    + destruct (Hrow i) as (sol & _ & Hs & Hcell); [destruct Hrun; lia|].
      exists (stars sol). split; [done|].
      by rewrite bool_decide_eq_true_2 in Hcell.
    + intros k Hk. destruct (Hrow k) as (sol & _ & _ & Hcell); [lia|].
      by rewrite bool_decide_eq_false_2 in Hcell by lia.
  - intros i. rewrite Hmerged. intros (i' & j' & [= Hi Hj] & Hlt & _).
    apply row_of_inj in Hi, Hj. lia.
Qed.

Lemma generate_excel_stars_groups_witness :
  exists ws,
    build_sheet (solve 1 2 1 2) = inr ws /\
    CellRange (row_of 1) 1 (row_of 2) 1 ∈ merged_cells ws.
Proof.
  destruct (generate_excel_stars_groups (solve 1 2 1 2))
    as (ws & Hbuild & _ & _ & _ & Hmerged & _).
  exists ws. split; [exact Hbuild|].
  apply Hmerged. exists 1%nat, 2%nat.
  split; [reflexivity|]. split; [lia|].
  split; [vm_compute; lia|]. split; [|split].
  - intros k Hk. assert (k = 1 \/ k = 2)%nat as [-> | ->] by lia; reflexivity.
  - reflexivity.
  - vm_compute. congruence.
Defined.

Example merged_cells_1_2_1_2 :
  rbind (build_sheet (solve 1 2 1 2)) (fun ws => inr (merged_cells ws)) =
  inr [CellRange 3 1 4 1].
Proof. reflexivity. Qed.

(** C9: with no solutions the renderer builds, without raising, a sheet
    that holds the four header cells of row 1 and nothing else (no data
    row) and has no merged range; the closing merge is skipped because
    [group_start_row] is still [None].  A run that returns normally has
    saved that sheet, and a run that raises does so in the directory or
    save step, never with the [TypeError] of a comparison with [None]. *)
Theorem generate_excel_empty :
  let ws := Worksheet "Sheet1"
              (<[(1, 4) := header_cell "fusion"]>
                 (<[(1, 3) := header_cell "xyz"]>
                    (<[(1, 2) := header_cell "nb cards"]>
                       (<[(1, 1) := header_cell "stars"]> ∅))))
              [] in
  data_rows (enumerate 2 []) (LoopState header_sheet None None) =
    inr (LoopState header_sheet None None) /\
  close_last_group [] (LoopState header_sheet None None) = inr header_sheet /\
  build_sheet [] = inr ws /\
  size (cells ws) = 4%nat /\
  (forall r c, r <> 1 -> cells ws !! (r, c) = None) /\
  merged_cells ws = [] /\
  (forall path w w',
     generate_excel [] path w = (w', inr tt) ->
     files w' !! path = Some ws) /\
  (forall path w e,
     (generate_excel [] path w).2 = inl e ->
     e <> TypeError /\
     exists evs,
       trace (generate_excel [] path w).1 =
       trace w ++ EvGenerateExcel [] path
                  :: EvMakedirs (os_path_dirname path) :: evs).
Proof.
  intros ws.
  assert (build_sheet [] = inr ws) as Hbuild.
  { unfold build_sheet. simpl. fold header_sheet. by rewrite header_sheet_eq. }
  split_and!; [done|done|done| | |done| |].
  - unfold ws. simpl cells.
    rewrite !map_size_insert_None, map_size_empty; [done|..];
      by rewrite ?lookup_insert_ne by congruence.
  - intros r c Hr. unfold ws. simpl cells.
    rewrite !lookup_insert_ne by congruence. done.
  - intros path w w' Hrun.
    by apply (generate_excel_saved [] path w w' ws).
  - intros path w e.
    destruct (generate_excel_cases [] path w)
      as (ws' & _ & [Hrun|[Hrun|[Hrun|Hrun]]]); rewrite Hrun; simpl;
      intros [= <-]; (split; [done|]); eexists;
      rewrite <- ?app_assoc; simpl; reflexivity.
Qed.

Lemma generate_excel_empty_witness :
  exists w' ws,
    generate_excel [] "results/out.xlsx" (initial_world ∅ ∅) = (w', inr tt) /\
    files w' !! "results/out.xlsx"%string = Some ws.
Proof.
  destruct generate_excel_empty as (_ & _ & Hbuild & _ & _ & _ & Hsaved & _).
  eexists _, _. split.
  - apply generate_excel_ok;
      [exact Hbuild|vm_compute; congruence|reflexivity|
       apply not_elem_of_empty|vm_compute; congruence].
  - eapply Hsaved.
    apply generate_excel_ok;
      [exact Hbuild|vm_compute; congruence|reflexivity|
       apply not_elem_of_empty|vm_compute; congruence].
Defined.



(** ** The command line *)

Lemma main_fusion_order (script_dir : string) (args : namespace) (w : world) :
  arg_fusion_max args < arg_fusion_min args ->
  main script_dir args w = (w, inl (SystemExit 2 "fusion_min must be ≤ fusion_max")).
Proof.
  intros Hlt. unfold main, bind, parser_error, raise.
  destruct (Z.gtb_spec (arg_fusion_min args) (arg_fusion_max args)); [done|lia].
Qed.

Lemma main_xyz_order (script_dir : string) (args : namespace) (w : world) :
  arg_fusion_min args <= arg_fusion_max args ->
  arg_xyz_max args < arg_xyz_min args ->
  main script_dir args w = (w, inl (SystemExit 2 "xyz_min must be ≤ xyz_max")).
Proof.
  intros Hf Hlt. unfold main, bind, parser_error, raise, ret.
  destruct (Z.gtb_spec (arg_fusion_min args) (arg_fusion_max args)); [lia|].
  destruct (Z.gtb_spec (arg_xyz_min args) (arg_xyz_max args)); [done|lia].
Qed.

Lemma main_positivity (script_dir : string) (args : namespace) (w : world) :
  arg_fusion_min args <= arg_fusion_max args ->
  arg_xyz_min args <= arg_xyz_max args ->
  arg_fusion_min args < 1 \/ arg_xyz_min args < 1 ->
  main script_dir args w = (w, inl (SystemExit 2 "All level/rank values must be ≥ 1")).
Proof.
  intros Hf Hx Hpos. unfold main, bind, parser_error, raise, ret.
  destruct (Z.gtb_spec (arg_fusion_min args) (arg_fusion_max args)); [lia|].
  destruct (Z.gtb_spec (arg_xyz_min args) (arg_xyz_max args)); [lia|].
  destruct (Z.ltb_spec (arg_fusion_min args) 1); [done|].
  destruct (Z.ltb_spec (arg_xyz_min args) 1); [done|lia].
Qed.

Lemma main_valid (script_dir : string) (args : namespace) (w : world) :
  valid_bounds (arg_fusion_min args) (arg_fusion_max args)
               (arg_xyz_min args) (arg_xyz_max args) ->
  main script_dir args w =
  generate_excel
    (solve (arg_fusion_min args) (arg_fusion_max args)
           (arg_xyz_min args) (arg_xyz_max args))
    (os_path_join script_dir ["results"%string; output_filename args])
    (World (dirs w) (files w)
           (trace w ++ [EvSolve (arg_fusion_min args) (arg_fusion_max args)
                                (arg_xyz_min args) (arg_xyz_max args)])).
Proof.
  intros (Hf & Hx & Hf1 & Hx1). unfold main, bind, parser_error, raise, ret, log.
  destruct (Z.gtb_spec (arg_fusion_min args) (arg_fusion_max args)); [lia|].
  destruct (Z.gtb_spec (arg_xyz_min args) (arg_xyz_max args)); [lia|].
  destruct (Z.ltb_spec (arg_fusion_min args) 1); [lia|].
  destruct (Z.ltb_spec (arg_xyz_min args) 1); [lia|].
  simpl. by destruct (generate_excel _ _ _) as [? [?|?]].
Qed.

(** C4: the checks are made in order, fusion ordering, then xyz
    ordering, then positivity; a violated check ends the run with exit
    status 2 (not zero) and its own message, the world untouched:
    nothing was enumerated, rendered or logged.  So [fusion_min = 5],
    [fusion_max = 1] ends with the fusion ordering message whatever the
    xyz bounds, and [xyz_min = 0] never passes validation: it ends with
    the positivity message when both orderings hold. *)
Theorem main_validation (script_dir : string) (args : namespace) (w : world) :
  (arg_fusion_max args < arg_fusion_min args ->
   main script_dir args w =
     (w, inl (SystemExit 2 "fusion_min must be ≤ fusion_max"))) /\
  (arg_fusion_min args <= arg_fusion_max args ->
   arg_xyz_max args < arg_xyz_min args ->
   main script_dir args w =
     (w, inl (SystemExit 2 "xyz_min must be ≤ xyz_max"))) /\
  (arg_fusion_min args <= arg_fusion_max args ->
   arg_xyz_min args <= arg_xyz_max args ->
   arg_fusion_min args < 1 \/ arg_xyz_min args < 1 ->
   main script_dir args w =
     (w, inl (SystemExit 2 "All level/rank values must be ≥ 1"))) /\
  (arg_fusion_min args = 5 -> arg_fusion_max args = 1 ->
   main script_dir args w =
     (w, inl (SystemExit 2 "fusion_min must be ≤ fusion_max"))) /\
  (arg_xyz_min args = 0 ->
   (exists message, main script_dir args w = (w, inl (SystemExit 2 message))) /\
   (arg_fusion_min args <= arg_fusion_max args ->
    arg_xyz_min args <= arg_xyz_max args ->
    main script_dir args w =
      (w, inl (SystemExit 2 "All level/rank values must be ≥ 1")))) /\
  (~ valid_bounds (arg_fusion_min args) (arg_fusion_max args)
                   (arg_xyz_min args) (arg_xyz_max args) ->
   exists message, main script_dir args w = (w, inl (SystemExit 2 message))).
Proof.
  split_and!.
  - apply main_fusion_order.
  - apply main_xyz_order.
  - apply main_positivity.
  - intros Hmin Hmax. apply main_fusion_order. lia.
  - intros Hx0. split.
    + destruct (Z.lt_ge_cases (arg_fusion_max args) (arg_fusion_min args)).
      { eexists. by apply main_fusion_order. }
      destruct (Z.lt_ge_cases (arg_xyz_max args) (arg_xyz_min args)).
      { eexists. apply main_xyz_order; lia. }
      eexists. apply main_positivity; lia.
    + intros Hf Hx. apply main_positivity; lia.
  - intros Hinv.
    destruct (Z.lt_ge_cases (arg_fusion_max args) (arg_fusion_min args)).
    { eexists. by apply main_fusion_order. }
    destruct (Z.lt_ge_cases (arg_xyz_max args) (arg_xyz_min args)).
    { eexists. apply main_xyz_order; lia. }
    eexists. apply main_positivity; [lia..|].
    unfold valid_bounds in Hinv. lia.
Qed.

Lemma main_validation_witness :
  main "/app" (Namespace 1 3 5 1) (initial_world ∅ ∅) =
  (initial_world ∅ ∅, inl (SystemExit 2 "fusion_min must be ≤ fusion_max")).
Proof.
  destruct (main_validation "/app" (Namespace 1 3 5 1) (initial_world ∅ ∅))
    as (Hfusion & _).
  apply Hfusion. simpl. lia.
Defined.

(** ** The output path *)

Lemma head_to_last_sep_contains (p : string) :
  head_to_last_sep p = ""%string <-> contains_sep p = false.
Proof.
  induction p as [|c p IH]; simpl; [done|].
  destruct (head_to_last_sep p) eqn:E.
  - destruct (is_sep c); simpl; [done|]. by rewrite <- IH.
  - split; [done|]. intros [_ Hp]%orb_false_iff. by apply IH in Hp.
Qed.

Lemma contains_sep_app (a b : string) :
  contains_sep (a ++ b) = contains_sep a || contains_sep b.
Proof.
  induction a as [|c a IH]; [done|].
  change (contains_sep (String c (a ++ b)) =
          contains_sep (String c a) || contains_sep b).
  simpl. by rewrite IH, orb_assoc.
Qed.

Lemma contains_sep_uint (d : Decimal.uint) :
  contains_sep (NilEmpty.string_of_uint d) = false.
Proof. induction d; simpl; done. Qed.

Lemma contains_sep_str (n : Z) : contains_sep (str n) = false.
Proof.
  unfold str, NilZero.string_of_int, NilZero.string_of_uint.
  destruct (Z.to_int n) as [d|d]; destruct d; simpl; try done;
    apply contains_sep_uint.
Qed.

Lemma contains_sep_output_filename (args : namespace) :
  contains_sep (output_filename args) = false.
Proof.
  unfold output_filename.
  rewrite !contains_sep_app, !contains_sep_str. done.
Qed.

Lemma append_nil_l (b : string) : ("" ++ b)%string = b.
Proof. reflexivity. Qed.

Lemma append_cons (c : ascii) (a b : string) :
  (String c a ++ b)%string = String c (a ++ b).
Proof. reflexivity. Qed.

Lemma append_assoc (a b c : string) : ((a ++ b) ++ c = a ++ (b ++ c))%string.
Proof.
  induction a as [|x a IH]; [done|]. by rewrite !append_cons, IH.
Qed.

Lemma append_not_nil_r (a b : string) : b <> ""%string -> (a ++ b)%string <> ""%string.
Proof. intros Hb. destruct a; [done|]. by rewrite append_cons. Qed.

Lemma head_to_last_sep_app (a b : string) :
  contains_sep b = false ->
  head_to_last_sep (a ++ "/" ++ b) = (a ++ "/")%string.
Proof.
  intros Hb. apply head_to_last_sep_contains in Hb.
  induction a as [|c a IH].
  - rewrite !append_nil_l, append_cons, append_nil_l. simpl. by rewrite Hb.
  - rewrite !(append_cons c a). simpl. rewrite IH.
    destruct (a ++ "/")%string eqn:E; [|done].
    by apply append_not_nil_r in E.
Qed.

Lemma rstrip_sep_snoc_sep (x : string) :
  rstrip_sep (x ++ "/") = rstrip_sep x.
Proof.
  induction x as [|c x IH]; [done|]. rewrite append_cons. simpl. by rewrite IH.
Qed.

Lemma rstrip_sep_app_fixed (x y : string) :
  y <> ""%string -> rstrip_sep y = y -> rstrip_sep (x ++ y) = (x ++ y)%string.
Proof.
  intros Hy Hfix. induction x as [|c x IH]; [done|].
  rewrite append_cons. simpl. rewrite IH.
  destruct (x ++ y)%string eqn:E; [|done].
  by apply append_not_nil_r in E.
Qed.

Lemma all_sep_app (x y : string) :
  all_sep (x ++ y) = all_sep x && all_sep y.
Proof.
  induction x as [|c x IH]; [done|].
  rewrite append_cons. simpl. by rewrite IH, andb_assoc.
Qed.

Lemma ends_with_sep_app (x y : string) :
  y <> ""%string -> ends_with_sep (x ++ y) = ends_with_sep y.
Proof.
  intros Hy. induction x as [|c x IH]; [done|].
  rewrite append_cons. simpl. rewrite IH.
  destruct (x ++ y)%string eqn:E; [|done].
  by apply append_not_nil_r in E.
Qed.

(** The directory part of a file placed in [dir/results]. *)
Lemma dirname_results (dir filename : string) :
  contains_sep filename = false ->
  os_path_dirname (dir ++ "/results/" ++ filename) = (dir ++ "/results")%string.
Proof.
  intros Hf. unfold os_path_dirname.
  replace (dir ++ "/results/" ++ filename)%string
    with ((dir ++ "/results") ++ "/" ++ filename)%string
    by (by rewrite !append_assoc).
  rewrite head_to_last_sep_app by done.
  rewrite bool_decide_eq_false_2 by (by apply append_not_nil_r).
  rewrite !all_sep_app. simpl. rewrite andb_false_r. simpl.
  rewrite rstrip_sep_snoc_sep. by apply rstrip_sep_app_fixed.
Qed.

Lemma starts_with_sep_contains (s : string) :
  contains_sep s = false -> starts_with_sep s = false.
Proof. destruct s as [|c s]; [done|]. simpl. by intros [? _]%orb_false_iff. Qed.

Lemma os_path_join_results (dir filename : string) :
  dir <> ""%string -> ends_with_sep dir = false ->
  contains_sep filename = false ->
  os_path_join dir ["results"%string; filename] =
  (dir ++ "/results/" ++ filename)%string.
Proof.
  intros Hdir Hend Hf. unfold os_path_join. simpl.
  rewrite (bool_decide_eq_false_2 (dir = ""%string)) by done.
  rewrite Hend. simpl.
  rewrite (starts_with_sep_contains _ Hf).
  change ("/" ++ "results")%string with "/results"%string.
  rewrite bool_decide_eq_false_2 by (by apply append_not_nil_r).
  rewrite ends_with_sep_app by done. simpl.
  rewrite !append_assoc. done.
Qed.

(** C6: when validation passes, [main] names the output file
    [sec xyz{xyz_min}-{xyz_max} fusion{fusion_min}-{fusion_max}.xlsx],
    joins it to the [results] directory of the script's own directory,
    and then calls the enumerator and, with its result and that path,
    the renderer, in this order. *)
Theorem main_output_path (script_dir : string) (args : namespace) (w : world) :
  valid_bounds (arg_fusion_min args) (arg_fusion_max args)
               (arg_xyz_min args) (arg_xyz_max args) ->
  let filename :=
    ("sec xyz" ++ str (arg_xyz_min args) ++ "-" ++ str (arg_xyz_max args)
     ++ " fusion" ++ str (arg_fusion_min args) ++ "-" ++ str (arg_fusion_max args)
     ++ ".xlsx")%string in
  let output_path := os_path_join script_dir ["results"%string; filename] in
  let solutions := solve (arg_fusion_min args) (arg_fusion_max args)
                         (arg_xyz_min args) (arg_xyz_max args) in
  let call := EvSolve (arg_fusion_min args) (arg_fusion_max args)
                      (arg_xyz_min args) (arg_xyz_max args) in
  main script_dir args w =
    generate_excel solutions output_path
      (World (dirs w) (files w) (trace w ++ [call])) /\
  (exists rest,
     trace (main script_dir args w).1 =
     trace w ++ call :: EvGenerateExcel solutions output_path :: rest) /\
  (script_dir <> ""%string -> ends_with_sep script_dir = false ->
   output_path = (script_dir ++ "/results/" ++ filename)%string /\
   os_path_dirname output_path = (script_dir ++ "/results")%string).
Proof.
  intros Hvalid filename output_path solutions call.
  pose proof (main_valid script_dir args w Hvalid) as Hmain.
  pose proof (contains_sep_output_filename args) as Hf.
  change (output_filename args) with filename in Hmain, Hf.
  fold output_path solutions call in Hmain.
  split_and!.
  - exact Hmain.
  - rewrite Hmain.
    destruct (generate_excel_trace solutions output_path
                (World (dirs w) (files w) (trace w ++ [call]))) as [rest Hrest].
    exists rest. rewrite Hrest. simpl. by rewrite <- app_assoc.
  - intros Hdir Hend.
    assert (output_path = (script_dir ++ "/results/" ++ filename)%string) as Hpath.
    { by apply os_path_join_results. }
    split; [done|]. rewrite Hpath. by apply dirname_results.
Qed.

Lemma main_output_path_witness :
  os_path_join "/app" ["results"%string; output_filename (Namespace 2 6 1 5)] =
  "/app/results/sec xyz2-6 fusion1-5.xlsx"%string.
Proof.
  assert (valid_bounds 1 5 2 6) as Hvalid by (unfold valid_bounds; lia).
  destruct (main_output_path "/app" (Namespace 2 6 1 5) (initial_world ∅ ∅) Hvalid)
    as (_ & _ & Hpath).
  destruct Hpath as [Hjoin _]; [done|reflexivity|].
  exact Hjoin.
Defined.

(** C7: [solve] is a function of its four bounds alone: equal bounds
    give equal lists, and it neither reads nor changes the world: in a
    run of [main] the renderer starts from the files and directories
    [main] started from.
    Rendering is idempotent on content: after a successful run a second
    run on the same inputs succeeds too and leaves the same files and
    directories; and two successful runs on the same inputs, from any
    two states of the file system, save sheets with the same cells,
    those of the contract. *)
Theorem solve_deterministic_render_idempotent :
  (forall a b c d a' b' c' d',
     a = a' -> b = b' -> c = c' -> d = d' ->
     solve a b c d = solve a' b' c' d') /\
  (forall script_dir args w,
     valid_bounds (arg_fusion_min args) (arg_fusion_max args)
                  (arg_xyz_min args) (arg_xyz_max args) ->
     exists w0,
       dirs w0 = dirs w /\ files w0 = files w /\
       main script_dir args w =
       generate_excel
         (solve (arg_fusion_min args) (arg_fusion_max args)
                (arg_xyz_min args) (arg_xyz_max args))
         (os_path_join script_dir ["results"%string; output_filename args])
         w0) /\
  (forall solutions path w w1,
     generate_excel solutions path w = (w1, inr tt) ->
     exists w2,
       generate_excel solutions path w1 = (w2, inr tt) /\
       files w2 = files w1 /\ dirs w2 = dirs w1) /\
  (forall solutions path w w' w1 w1',
     generate_excel solutions path w = (w1, inr tt) ->
     generate_excel solutions path w' = (w1', inr tt) ->
     exists ws,
       files w1 !! path = Some ws /\ files w1' !! path = Some ws /\
       forall r c, cells ws !! (r, c) = spec_sheet_cell solutions r c).
Proof.
  split_and!.
  - intros a b c d a' b' c' d' -> -> -> ->. done.
  - intros script_dir args w Hvalid.
    eexists. split_and!; [| |by apply main_valid]; done.
  - intros solutions path w w1 Hrun.
    destruct (build_sheet_total solutions) as [ws Hws].
    destruct (generate_excel_ok_inv _ _ _ _ Hrun) as (Hdir & Hfile & Hpath & Hne).
    rewrite (generate_excel_ok _ _ _ ws Hws Hdir Hfile Hpath Hne) in Hrun.
    injection Hrun as <-.
    eexists. split.
    + apply (generate_excel_ok _ _ _ ws); simpl; [done|done| | |done].
      * by rewrite lookup_insert_ne.
      * rewrite elem_of_union, elem_of_singleton. by intros [?|?].
    + simpl. split; [apply insert_insert_eq|].
      by rewrite (assoc_L (∪)), (idemp_L (∪)).
  - intros solutions path w w' w1 w1' Hrun Hrun'.
    destruct (build_sheet_correct solutions) as (ws & Hws & Hcells & _).
    exists ws. split_and!; [|..|done].
    + by apply (generate_excel_saved solutions path w w1 ws).
    + by apply (generate_excel_saved solutions path w' w1' ws).
Qed.

Lemma solve_deterministic_render_idempotent_witness :
  exists w1 w2,
    generate_excel (solve 1 2 1 2) "results/out.xlsx" (initial_world ∅ ∅) = (w1, inr tt) /\
    generate_excel (solve 1 2 1 2) "results/out.xlsx" w1 = (w2, inr tt) /\
    files w2 = files w1.
Proof.
  destruct solve_deterministic_render_idempotent as (_ & _ & Hagain & _).
  destruct (build_sheet_total (solve 1 2 1 2)) as [ws Hws].
  assert (generate_excel (solve 1 2 1 2) "results/out.xlsx" (initial_world ∅ ∅)
          = (World ({[os_path_dirname "results/out.xlsx"]} ∪ dirs (initial_world ∅ ∅))
                   (<["results/out.xlsx"%string := ws]> (files (initial_world ∅ ∅)))
                   (trace (initial_world ∅ ∅) ++
                    [EvGenerateExcel (solve 1 2 1 2) "results/out.xlsx";
                     EvMakedirs (os_path_dirname "results/out.xlsx");
                     EvSave "results/out.xlsx";
                     EvPrint ("Saved: " ++ "results/out.xlsx")]), inr tt)) as Hrun.
  { apply generate_excel_ok; [exact Hws|vm_compute; congruence|reflexivity|
                              apply not_elem_of_empty|vm_compute; congruence]. }
  destruct (Hagain _ _ _ _ Hrun) as (w2 & Hrun2 & Hfiles & _).
  eexists _, w2. split; [exact Hrun|]. split; [exact Hrun2|exact Hfiles].
Defined.

(** * Further properties *)

(** ** More about the enumerator *)

Lemma solve_strictly_sorted (fusion_min fusion_max xyz_min xyz_max : Z) :
  StronglySorted key_gt (solve fusion_min fusion_max xyz_min xyz_max).
Proof.
  pose proof (sort_desc_sorted
    (enumerate_loops fusion_min fusion_max xyz_min xyz_max)) as Hs.
  fold (solve fusion_min fusion_max xyz_min xyz_max) in Hs.
  pose proof (NoDup_solve fusion_min fusion_max xyz_min xyz_max) as Hn.
  assert (forall r1 r2,
            r1 ∈ solve fusion_min fusion_max xyz_min xyz_max ->
            r2 ∈ solve fusion_min fusion_max xyz_min xyz_max ->
            stars r1 = stars r2 -> xyz r1 = xyz r2 -> r1 = r2) as Hinj.
  { intros r1 r2. apply solve_key_inj. }
  induction Hs as [|x l Hl IH Hx]; [constructor|].
  apply NoDup_cons in Hn as [Hxl Hn].
  constructor.
  - apply IH; [done|]. intros r1 r2 ? ?. apply Hinj; by right.
  - rewrite Forall_forall in Hx |- *. intros y Hy.
    specialize (Hx y Hy). unfold key_ge in Hx. unfold key_gt.
    destruct (decide (xyz y = xyz x)) as [E|]; [|lia].
    destruct (decide (stars y = stars x)) as [E'|]; [|lia].
    assert (y = x) as -> by (apply Hinj; [by right|left|done..]). done.
Qed.

(** X1: [solve] accepts any four integers.  The number of records is
    the product of the two range lengths, an empty range counting 0;
    the result is the empty list exactly when one of the ranges is
    empty ([fusion_max < fusion_min] or [xyz_max < xyz_min]). *)
Theorem solve_any_bounds (fusion_min fusion_max xyz_min xyz_max : Z) :
  length (solve fusion_min fusion_max xyz_min xyz_max) =
    (Z.to_nat (fusion_max + 1 - fusion_min) *
     Z.to_nat (xyz_max + 1 - xyz_min))%nat /\
  (solve fusion_min fusion_max xyz_min xyz_max = [] <->
   fusion_max < fusion_min \/ xyz_max < xyz_min).
Proof.
  assert (length (solve fusion_min fusion_max xyz_min xyz_max) =
          (Z.to_nat (fusion_max + 1 - fusion_min) *
           Z.to_nat (xyz_max + 1 - xyz_min))%nat) as Hlen.
  { by rewrite solve_perm, length_enumerate_loops. }
  split; [done|].
  rewrite <- length_zero_iff_nil, Hlen, Nat.eq_mul_0. lia.
Qed.

(** X2: under valid bounds the stars values of the records are exactly
    the integers from [fusion_min + xyz_min] to [fusion_max + xyz_max];
    [nb_cards] lies between [fusion_min + 2*xyz_min] and
    [fusion_max + 2*xyz_max]; and every field is positive
    ([fusion >= 1], [xyz >= 1], [stars >= 2], [nb_cards >= 3]). *)
Theorem solve_value_ranges (fusion_min fusion_max xyz_min xyz_max : Z) :
  valid_bounds fusion_min fusion_max xyz_min xyz_max ->
  let sols := solve fusion_min fusion_max xyz_min xyz_max in
  (forall s, (exists r, r ∈ sols /\ stars r = s) <->
             fusion_min + xyz_min <= s <= fusion_max + xyz_max) /\
  (forall r, r ∈ sols ->
     fusion_min + 2 * xyz_min <= nb_cards r <= fusion_max + 2 * xyz_max /\
     1 <= fusion r /\ 1 <= xyz r /\ 2 <= stars r /\ 3 <= nb_cards r).
Proof.
  intros (Hf & Hx & Hf1 & Hx1) sols. split.
  - intros s. split.
    + intros (r & (? & ? & ->)%elem_of_solve & <-). simpl. lia.
    + intros Hs.
      exists (mk_solution (Z.max fusion_min (s - xyz_max))
                          (s - Z.max fusion_min (s - xyz_max))).
      split; [|simpl; lia].
      apply elem_of_solve. simpl. split_and!; [lia..|done].
  - intros r (? & ? & ->)%elem_of_solve. simpl. lia.
Qed.

Lemma solve_value_ranges_witness :
  exists r, r ∈ solve 1 5 2 6 /\ stars r = 7.
Proof.
  assert (valid_bounds 1 5 2 6) as Hv by (unfold valid_bounds; lia).
  destruct (solve_value_ranges 1 5 2 6 Hv) as [Hstars _].
  apply Hstars. lia.
Defined.

(** X3: the equation system can be solved back: in every record
    [xyz = nb_cards - stars] and [fusion = 2*stars - nb_cards], so two
    records of one result with the same [stars] and the same
    [nb_cards] are the same record. *)
Theorem solve_system_inverse (fusion_min fusion_max xyz_min xyz_max : Z)
    (r1 r2 : solution) :
  r1 ∈ solve fusion_min fusion_max xyz_min xyz_max ->
  r2 ∈ solve fusion_min fusion_max xyz_min xyz_max ->
  xyz r1 = nb_cards r1 - stars r1 /\
  fusion r1 = 2 * stars r1 - nb_cards r1 /\
  (stars r1 = stars r2 -> nb_cards r1 = nb_cards r2 -> r1 = r2).
Proof.
  intros H1 H2.
  pose proof H1 as (_ & _ & E1)%elem_of_solve.
  pose proof H2 as (_ & _ & E2)%elem_of_solve.
  split_and!.
  - rewrite E1. simpl. lia.
  - rewrite E1. simpl. lia.
  - intros Hs Hn.
    apply (solve_key_inj fusion_min fusion_max xyz_min xyz_max); [done..|].
    rewrite E1, E2 in Hs, Hn. simpl in Hs, Hn. lia.
Qed.

Lemma solve_system_inverse_witness :
  xyz (Solution 3 5 2 1) = nb_cards (Solution 3 5 2 1) - stars (Solution 3 5 2 1).
Proof.
  apply (solve_system_inverse 1 2 1 2 (Solution 3 5 2 1) (Solution 3 4 1 2)).
  - vm_compute. right. left.
  - vm_compute. right. right. left.
Defined.

(** X4: when both ranges are non-empty the first record of the result
    is the one of the pair [(fusion_max, xyz_max)] and the last record
    the one of [(fusion_min, xyz_min)]. *)
Theorem solve_first_last (fusion_min fusion_max xyz_min xyz_max : Z) :
  fusion_min <= fusion_max -> xyz_min <= xyz_max ->
  head (solve fusion_min fusion_max xyz_min xyz_max) =
    Some (mk_solution fusion_max xyz_max) /\
  last (solve fusion_min fusion_max xyz_min xyz_max) =
    Some (mk_solution fusion_min xyz_min).
Proof.
  intros Hf Hx.
  pose proof (solve_strictly_sorted fusion_min fusion_max xyz_min xyz_max) as Hs.
  assert (mk_solution fusion_max xyz_max ∈
          solve fusion_min fusion_max xyz_min xyz_max) as Hmax.
  { apply elem_of_solve. simpl. split_and!; [lia..|done]. }
  assert (mk_solution fusion_min xyz_min ∈
          solve fusion_min fusion_max xyz_min xyz_max) as Hmin.
  { apply elem_of_solve. simpl. split_and!; [lia..|done]. }
  assert (forall r, r ∈ solve fusion_min fusion_max xyz_min xyz_max ->
            fusion_min <= fusion r <= fusion_max /\
            xyz_min <= xyz r <= xyz_max /\
            stars r = fusion r + xyz r) as Hin.
  { intros r (? & ? & ->)%elem_of_solve. simpl. lia. }
  split.
  - destruct (solve fusion_min fusion_max xyz_min xyz_max) as [|x l] eqn:E.
    { by apply elem_of_nil in Hmax. }
    simpl. f_equal.
    apply elem_of_cons in Hmax as [<-|Hmax]; [done|]. exfalso.
    apply StronglySorted_inv in Hs as [_ Hall].
    rewrite Forall_forall in Hall. specialize (Hall _ Hmax).
    destruct (Hin x) as (? & ? & ?); [left|].
    unfold key_gt in Hall. simpl in Hall. lia.
  - clear Hmax. revert Hs Hmin Hin.
    generalize (solve fusion_min fusion_max xyz_min xyz_max). intros l.
    destruct l as [|x0 l0 _] using rev_ind; intros Hs Hmin Hin.
    { by apply elem_of_nil in Hmin. }
    rewrite last_snoc. f_equal.
    apply elem_of_app in Hmin as [Hmin|Hmin%list_elem_of_singleton]; [|done].
    exfalso.
    assert (key_gt (mk_solution fusion_min xyz_min) x0) as Hgt.
    { apply (StronglySorted_app_1_elem_of key_gt l0 [x0]); [done|done|].
      by apply list_elem_of_singleton. }
    destruct (Hin x0) as (? & ? & ?).
    { apply elem_of_app. right. by apply list_elem_of_singleton. }
    unfold key_gt in Hgt. simpl in Hgt. lia.
Qed.

Lemma solve_first_last_witness :
  head (solve 1 2 1 2) = Some (mk_solution 2 2) /\
  last (solve 1 2 1 2) = Some (mk_solution 1 1).
Proof. apply (solve_first_last 1 2 1 2); lia. Defined.

(** X5: inside a group of equal stars the rows go by strictly
    decreasing [xyz], hence strictly decreasing [nb_cards] and strictly
    increasing [fusion]. *)
Theorem solve_group_order (fusion_min fusion_max xyz_min xyz_max : Z)
    (i j : nat) (r1 r2 : solution) :
  (i < j)%nat ->
  solve fusion_min fusion_max xyz_min xyz_max !! i = Some r1 ->
  solve fusion_min fusion_max xyz_min xyz_max !! j = Some r2 ->
  stars r1 = stars r2 ->
  xyz r2 < xyz r1 /\ nb_cards r2 < nb_cards r1 /\ fusion r1 < fusion r2.
Proof.
  intros Hij Hi Hj Hs.
  assert (key_gt r1 r2) as Hgt.
  { eapply StronglySorted_lookup_lt; [apply solve_strictly_sorted|exact Hij|done..]. }
  apply list_elem_of_lookup_2 in Hi, Hj.
  apply elem_of_solve in Hi as (_ & _ & E1), Hj as (_ & _ & E2).
  rewrite E1, E2 in Hs, Hgt |- *. unfold key_gt in Hgt. simpl in *. lia.
Qed.

Lemma solve_group_order_witness :
  xyz (Solution 3 4 1 2) < xyz (Solution 3 5 2 1) /\
  nb_cards (Solution 3 4 1 2) < nb_cards (Solution 3 5 2 1) /\
  fusion (Solution 3 5 2 1) < fusion (Solution 3 4 1 2).
Proof.
  apply (solve_group_order 1 2 1 2 1 2); [lia|reflexivity|reflexivity|reflexivity].
Defined.

(** ** More about the renderer *)

Lemma row_cells_is_Some (v1 v2 v3 v4 : value) (c : Z) :
  is_Some (row_cells v1 v2 v3 v4 c) <-> 1 <= c <= 4.
Proof.
  unfold row_cells.
  repeat case_bool_decide; (split; [intros [? Hsome]|intros Hc]);
    first [lia | by eauto | discriminate Hsome].
Qed.

Lemma spec_sheet_cell_is_Some (solutions : list solution) (r c : Z) :
  is_Some (spec_sheet_cell solutions r c) <->
  1 <= r <= Z.of_nat (length solutions) + 1 /\ 1 <= c <= 4.
Proof.
  unfold spec_sheet_cell.
  case_bool_decide as Hr1; [subst r|case_bool_decide as Hr2].
  - case_bool_decide as Hc.
    + rewrite fmap_is_Some, lookup_lt_is_Some. simpl. lia.
    + split; [by intros [? [=]]|lia].
  - destruct (solutions !! Z.to_nat (r - 2)) as [sol|] eqn:E.
    + apply lookup_lt_Some in E. rewrite row_cells_is_Some. lia.
    + apply lookup_ge_None in E. split; [by intros [? [=]]|lia].
  - split; [by intros [? [=]]|lia].
Qed.

(** X6: for every list of solutions the sheet is built without
    raising.  Row 1 holds the four headers [stars], [nb cards], [xyz],
    [fusion], bold, centred and with a thin left border; the row of the
    solution at position [i] holds its [nb_cards], [xyz] and [fusion]
    in columns 2, 3 and 4 with default style; and a cell exists exactly
    at rows 1 to [len(solutions) + 1] and columns 1 to 4. *)
Theorem build_sheet_layout (solutions : list solution) :
  exists ws,
    build_sheet solutions = inr ws /\
    cells ws !! (1, 1) = Some (Cell (VStr "stars") true true true) /\
    cells ws !! (1, 2) = Some (Cell (VStr "nb cards") true true true) /\
    cells ws !! (1, 3) = Some (Cell (VStr "xyz") true true true) /\
    cells ws !! (1, 4) = Some (Cell (VStr "fusion") true true true) /\
    (forall i sol, solutions !! i = Some sol ->
       cells ws !! (Z.of_nat i + 2, 2) =
         Some (Cell (VInt (nb_cards sol)) false false false) /\
       cells ws !! (Z.of_nat i + 2, 3) =
         Some (Cell (VInt (xyz sol)) false false false) /\
       cells ws !! (Z.of_nat i + 2, 4) =
         Some (Cell (VInt (fusion sol)) false false false)) /\
    (forall r c, is_Some (cells ws !! (r, c)) <->
       1 <= r <= Z.of_nat (length solutions) + 1 /\ 1 <= c <= 4).
Proof.
  destruct (build_sheet_correct solutions) as (ws & Hws & Hcells & _).
  exists ws. split_and!; [done|by rewrite Hcells..| |].
  - intros i sol Hsol. fold (row_of i).
    rewrite !Hcells, !(spec_sheet_cell_row _ _ _ _ Hsol). done.
  - intros r c. rewrite Hcells. apply spec_sheet_cell_is_Some.
Qed.

Lemma build_sheet_layout_witness :
  exists ws,
    build_sheet (solve 1 2 1 2) = inr ws /\
    cells ws !! (3, 2) = Some (Cell (VInt 5) false false false).
Proof.
  destruct (build_sheet_layout (solve 1 2 1 2))
    as (ws & Hbuild & _ & _ & _ & _ & Hrows & _).
  exists ws. split; [exact Hbuild|].
  destruct (Hrows 1%nat (Solution 3 5 2 1)) as (Hnb & _); [reflexivity|].
  exact Hnb.
Defined.

(** Two maximal runs that share a position are the same run. *)
Lemma maximal_run_overlap (ss : list Z) (i j i' j' k : nat) :
  maximal_run ss i j -> maximal_run ss i' j' ->
  (i <= k <= j)%nat -> (i' <= k <= j')%nat ->
  i = i' /\ j = j'.
Proof.
  intros (Hij & Hc & Hs & He) (Hij' & Hc' & Hs' & He') Hk Hk'.
  assert (i = i') as <-.
  { apply (run_start_unique ss i i' k); [done|done|lia|lia| |].
    - intros k0 ?. apply Hc. lia.
    - intros k0 ?. apply Hc'. lia. }
  split; [done|].
  destruct (lt_eq_lt_dec j j') as [[Hlt|Heq]|Hlt]; [|done|].
  - exfalso. apply He. rewrite (Hc' (S j)), (Hc' j) by lia. done.
  - exfalso. apply He'. rewrite (Hc (S j')), (Hc j') by lia. done.
Qed.

(** X7: every merged range lies in column 1, spans at least two rows,
    stays within the data rows (the header row is never merged), and
    no two different merged ranges share a row. *)
Theorem merged_ranges_disjoint (solutions : list solution) :
  exists ws,
    build_sheet solutions = inr ws /\
    (forall r, r ∈ merged_cells ws ->
       start_column r = 1 /\ end_column r = 1 /\
       2 <= start_row r /\ start_row r < end_row r /\
       end_row r <= Z.of_nat (length solutions) + 1) /\
    (forall r1 r2, r1 ∈ merged_cells ws -> r2 ∈ merged_cells ws -> r1 <> r2 ->
       end_row r1 < start_row r2 \/ end_row r2 < start_row r1).
Proof.
  destruct (build_sheet_correct solutions) as (ws & Hws & _ & Hmerged & _).
  exists ws. split_and!; [done| |].
  - intros r (i & j & -> & Hij & ([_ Hj] & _))%Hmerged.
    rewrite length_fmap in Hj. simpl. unfold row_of. lia.
  - intros r1 r2 (i & j & -> & Hij & Hrun)%Hmerged
                 (i' & j' & -> & Hij' & Hrun')%Hmerged Hne.
    simpl. unfold row_of.
    destruct (decide (j < i')%nat); [lia|].
    destruct (decide (j' < i)%nat); [lia|].
    exfalso. apply Hne.
    destruct (maximal_run_overlap _ i j i' j' (Nat.max i i') Hrun Hrun')
      as [-> ->]; [lia..|done].
Qed.

Lemma merged_ranges_disjoint_witness :
  exists ws,
    build_sheet (solve 1 3 1 3) = inr ws /\
    (end_row (CellRange 3 1 4 1) < start_row (CellRange 5 1 7 1) \/
     end_row (CellRange 5 1 7 1) < start_row (CellRange 3 1 4 1)).
Proof.
  destruct (merged_ranges_disjoint (solve 1 3 1 3)) as (ws & Hbuild & _ & Hdisj).
  exists ws. split; [exact Hbuild|].
  assert (inr ws = build_sheet (solve 1 3 1 3)) as Hws by done.
  vm_compute in Hws. injection Hws as ->.
  apply Hdisj; [vm_compute| vm_compute |congruence].
  - left.
  - right. left.
Defined.

(** A non-blank cell in column 1 of a data row marks the start of a
    group and shows the stars value of that row's solution. *)
Lemma stars_cell_shown (solutions : list solution) (ws : worksheet)
    (i : nat) (s : Z) :
  (forall r c, cells ws !! (r, c) = spec_sheet_cell solutions r c) ->
  cells ws !! (row_of i, 1) = Some (plain (VInt s)) ->
  exists sol, solutions !! i = Some sol /\ stars sol = s /\
              starts_group (stars <$> solutions) i = true.
Proof.
  intros Hcells Hcell. rewrite Hcells in Hcell.
  destruct (solutions !! i) as [sol|] eqn:Hsol.
  - rewrite (spec_sheet_cell_row _ _ _ _ Hsol) in Hcell.
    unfold row_cells, stars_cell_value in Hcell. simpl in Hcell.
    exists sol. destruct (starts_group (stars <$> solutions) i); [|done].
    injection Hcell as <-. done.
  - unfold spec_sheet_cell in Hcell.
    rewrite bool_decide_eq_false_2 in Hcell by (unfold row_of; lia).
    rewrite bool_decide_eq_true_2 in Hcell by (unfold row_of; lia).
    replace (Z.to_nat (row_of i - 2)) with i in Hcell by (unfold row_of; lia).
    by rewrite Hsol in Hcell.
Qed.

(** X8: in the sheet rendered from the result of [solve], the stars
    values shown in column 1 strictly decrease down the sheet: each
    stars value heads one group only. *)
Theorem solve_sheet_groups_decrease (fusion_min fusion_max xyz_min xyz_max : Z) :
  exists ws,
    build_sheet (solve fusion_min fusion_max xyz_min xyz_max) = inr ws /\
    forall (i i' : nat) (s s' : Z),
      (i < i')%nat ->
      cells ws !! (Z.of_nat i + 2, 1) = Some (Cell (VInt s) false false false) ->
      cells ws !! (Z.of_nat i' + 2, 1) = Some (Cell (VInt s') false false false) ->
      s' < s.
Proof.
  set (sols := solve fusion_min fusion_max xyz_min xyz_max).
  destruct (build_sheet_correct sols) as (ws & Hws & Hcells & _).
  exists ws. split; [done|]. intros i i' s s' Hlt Hi Hi'.
  destruct (stars_cell_shown sols ws i s Hcells Hi) as (sol & Hsol & <- & _).
  destruct (stars_cell_shown sols ws i' s' Hcells Hi') as (sol' & Hsol' & <- & Hstart).
  destruct i' as [|k]; [lia|]. simpl in Hstart.
  apply bool_decide_eq_true in Hstart.
  destruct (lookup_lt_is_Some_2 sols k) as [solk Hsolk].
  { apply lookup_lt_Some in Hsol'. lia. }
  rewrite !list_lookup_fmap, Hsolk, Hsol' in Hstart. simpl in Hstart.
  assert (key_ge solk sol') as Hk.
  { apply (StronglySorted_lookup_lt key_ge sols k (S k));
      [apply sort_desc_sorted|lia|done..]. }
  assert (stars solk <= stars sol) as Hik.
  { destruct (decide (i = k)) as [->|Hne].
    - rewrite Hsol in Hsolk. by injection Hsolk as ->.
    - assert (key_ge sol solk) as Hge.
      { apply (StronglySorted_lookup_lt key_ge sols i k);
          [apply sort_desc_sorted|lia|done..]. }
      unfold key_ge in Hge. lia. }
  unfold key_ge in Hk.
  assert (stars solk <> stars sol') by congruence. lia.
Qed.

Lemma solve_sheet_groups_decrease_witness :
  exists ws, build_sheet (solve 1 2 1 2) = inr ws /\ 3 < 4.
Proof.
  destruct (solve_sheet_groups_decrease 1 2 1 2) as (ws & Hbuild & Hdec).
  exists ws. split; [exact Hbuild|].
  assert (inr ws = build_sheet (solve 1 2 1 2)) as Hws by done.
  vm_compute in Hws. injection Hws as ->.
  apply (Hdec 0%nat 1%nat 4 3); [lia|reflexivity|reflexivity].
Defined.

(** ** Effects of a run of the renderer *)



(** ** More about the command line *)

Lemma str_inj (n m : Z) : str n = str m -> n = m.
Proof.
  intros E. unfold str in E.
  assert (forall z, NilZero.int_of_string (NilZero.string_of_int (Z.to_int z))
                    = Some (Z.to_int z)) as Hisi.
  { intros z. apply NilZero.isi; destruct z; simpl; try discriminate;
      intros [= H]; by apply DecimalPos.Unsigned.to_uint_nonnil in H. }
  pose proof (Hisi n) as Hn. rewrite E, Hisi in Hn. injection Hn as Hn.
  rewrite <- (DecimalZ.of_to n), <- (DecimalZ.of_to m). by rewrite Hn.
Qed.

Lemma all_digits_uint (d : Decimal.uint) :
  all_digits (NilEmpty.string_of_uint d) = true.
Proof. induction d; simpl; done. Qed.

Lemma all_digits_str (n : Z) : 0 <= n -> all_digits (str n) = true.
Proof.
  intros Hn. unfold str, NilZero.string_of_int, NilZero.string_of_uint.
  destruct n as [|p|p]; [done| |lia]. simpl.
  destruct (Pos.to_uint p); try done; apply all_digits_uint.
Qed.

Lemma append_inj_l (p s t : string) : (p ++ s)%string = (p ++ t)%string -> s = t.
Proof.
  induction p as [|c p IH]; [done|].
  rewrite !append_cons. intros [= E]. by apply IH.
Qed.

(** Two digit strings followed by the same non-digit and equal as a
    whole are equal part by part. *)
Lemma digits_split (c : ascii) (s s' r r' : string) :
  is_digit c = false -> all_digits s = true -> all_digits s' = true ->
  (s ++ String c r)%string = (s' ++ String c r')%string ->
  s = s' /\ r = r'.
Proof.
  intros Hc. revert s'. induction s as [|x s IH]; intros [|x' s'] Hs Hs'.
  - rewrite !append_nil_l. by intros [= ->].
  - rewrite append_nil_l, append_cons. intros [= -> _].
    simpl in Hs'. by rewrite Hc in Hs'.
  - rewrite append_nil_l, append_cons. intros [= -> _].
    simpl in Hs. by rewrite Hc in Hs.
  - rewrite !append_cons. intros [= -> E].
    simpl in Hs, Hs'. apply andb_true_iff in Hs as [_ Hs], Hs' as [_ Hs'].
    destruct (IH s' Hs Hs' E) as [-> ->]. done.
Qed.

(** X10: the file name tells the run: two sets of valid bounds with the
    same output file name are the same bounds, so runs with different
    arguments never write to the same file. *)
Theorem output_filename_injective (args args' : namespace) :
  valid_bounds (arg_fusion_min args) (arg_fusion_max args)
               (arg_xyz_min args) (arg_xyz_max args) ->
  valid_bounds (arg_fusion_min args') (arg_fusion_max args')
               (arg_xyz_min args') (arg_xyz_max args') ->
  output_filename args = output_filename args' ->
  args = args'.
Proof.
  intros (? & ? & ? & ?) (? & ? & ? & ?) E.
  destruct args as [a b c d], args' as [a' b' c' d'].
  unfold output_filename in E. simpl in *.
  apply (append_inj_l "sec xyz") in E.
  change ("-" ++ ?x)%string with (String "-" x) in E.
  apply digits_split in E as [Ea E]; [|done|apply all_digits_str; lia..].
  change (" fusion" ++ ?x)%string with (String " " ("fusion" ++ x)) in E.
  apply digits_split in E as [Eb E]; [|done|apply all_digits_str; lia..].
  apply (append_inj_l "fusion") in E.
  change ("-" ++ ?x)%string with (String "-" x) in E.
  apply digits_split in E as [Ec E]; [|done|apply all_digits_str; lia..].
  change (".xlsx")%string with (String "." "xlsx") in E.
  apply digits_split in E as [Ed _]; [|done|apply all_digits_str; lia..].
  apply str_inj in Ea, Eb, Ec, Ed. by subst.
Qed.

Lemma output_filename_injective_witness :
  Namespace 2 6 1 5 = Namespace 2 6 1 5.
Proof.
  apply output_filename_injective.
  - unfold valid_bounds. simpl. lia.
  - unfold valid_bounds. simpl. lia.
  - reflexivity.
Defined.

Lemma contains_sep_dirname (p : string) :
  contains_sep p = true -> os_path_dirname p <> ""%string.
Proof.
  intros Hp Hd. apply dirname_empty, head_to_last_sep_contains in Hd. congruence.
Qed.

(** The path [main] hands to the renderer, whatever the script directory. *)
Lemma os_path_join_results_any (dir filename : string) :
  contains_sep filename = false ->
  exists prefix,
    os_path_join dir ["results"%string; filename] =
    (prefix ++ "results" ++ "/" ++ filename)%string.
Proof.
  intros Hf. unfold os_path_join. simpl.
  rewrite (starts_with_sep_contains _ Hf).
  destruct (bool_decide (dir = ""%string) || ends_with_sep dir).
  - exists dir.
    rewrite bool_decide_eq_false_2 by (by apply append_not_nil_r).
    rewrite ends_with_sep_app by done. simpl. by rewrite !append_assoc.
  - exists (dir ++ "/")%string.
    change ("/" ++ "results")%string with "/results"%string.
    rewrite bool_decide_eq_false_2 by (by apply append_not_nil_r).
    rewrite ends_with_sep_app by done. simpl. by rewrite !append_assoc.
Qed.

(** X11: whatever the script directory and the arguments, the output
    path [main] computes has a non-empty directory part, so a run of
    [main] never ends in the [FileNotFoundError] that [os.makedirs]
    raises for an empty name. *)
Theorem main_path_has_directory (script_dir : string) (args : namespace)
    (w : world) :
  os_path_dirname
    (os_path_join script_dir ["results"%string; output_filename args])
    <> ""%string /\
  (main script_dir args w).2 <> inl (FileNotFoundError "").
Proof.
  assert (os_path_dirname
            (os_path_join script_dir ["results"%string; output_filename args])
          <> ""%string) as Hdir.
  { destruct (os_path_join_results_any script_dir (output_filename args))
      as [prefix ->]; [apply contains_sep_output_filename|].
    apply contains_sep_dirname.
    rewrite !contains_sep_app. simpl. by rewrite orb_true_r. }
  split; [done|].
  unfold main, bind, parser_error, raise, ret, log.
  destruct (_ >? _); [done|]. destruct (_ >? _); [done|].
  destruct (_ || _); [done|]. simpl.
  match goal with
  | |- context [generate_excel ?s ?p ?w0] =>
      destruct (generate_excel_cases s p w0)
        as (ws & _ & [Hrun|[Hrun|[Hrun|Hrun]]]); rewrite Hrun; simpl
  end.
  all: try done.
  all: intros [= E]; by apply Hdir.
Qed.



(** ** The sheet keeps the solutions *)

(** X13: nothing is lost in rendering: two lists of solutions that give
    the same sheet are the same list.  (Columns 2 to 4 hold three of
    the fields; the stars value of a row is the one shown at the top of
    its group.) *)
Theorem build_sheet_injective (solutions solutions' : list solution) :
  build_sheet solutions = build_sheet solutions' ->
  solutions = solutions'.
Proof.
  intros E.
  destruct (build_sheet_correct solutions) as (ws & Hws & Hcells & _).
  destruct (build_sheet_correct solutions') as (ws' & Hws' & Hcells' & _).
  rewrite Hws, Hws' in E. injection E as <-.
  assert (length solutions = length solutions') as Hlen.
  { pose proof (spec_sheet_cell_is_Some solutions) as H1.
    pose proof (spec_sheet_cell_is_Some solutions') as H2.
    assert (forall r, 1 <= r <= Z.of_nat (length solutions) + 1 <->
                      1 <= r <= Z.of_nat (length solutions') + 1) as Hr.
    { intros r. specialize (H1 r 1). specialize (H2 r 1).
      rewrite <- Hcells in H1. rewrite <- Hcells' in H2.
      split; intros Hr.
      - assert (is_Some (cells ws !! (r, 1))) as Hs by (apply H1; lia).
        apply H2 in Hs. lia.
      - assert (is_Some (cells ws !! (r, 1))) as Hs by (apply H2; lia).
        apply H1 in Hs. lia. }
    pose proof (Hr (Z.of_nat (length solutions) + 1)).
    pose proof (Hr (Z.of_nat (length solutions') + 1)). lia. }
  assert (forall i sol sol',
            solutions !! i = Some sol -> solutions' !! i = Some sol' ->
            nb_cards sol = nb_cards sol' /\ xyz sol = xyz sol' /\
            fusion sol = fusion sol' /\
            stars_cell_value solutions i sol = stars_cell_value solutions' i sol')
    as Hrow.
  { intros i sol sol' Hsol Hsol'.
    assert (forall c,
              row_cells (stars_cell_value solutions i sol) (VInt (nb_cards sol))
                        (VInt (xyz sol)) (VInt (fusion sol)) c =
              row_cells (stars_cell_value solutions' i sol') (VInt (nb_cards sol'))
                        (VInt (xyz sol')) (VInt (fusion sol')) c) as Hc.
    { intros c. rewrite <- (spec_sheet_cell_row _ _ _ _ Hsol),
                        <- (spec_sheet_cell_row _ _ _ _ Hsol').
      by rewrite <- Hcells, <- Hcells'. }
    pose proof (Hc 1) as [= H1]. pose proof (Hc 2) as [= H2].
    pose proof (Hc 3) as [= H3]. pose proof (Hc 4) as [= H4]. done. }
  assert (forall i sol sol',
            solutions !! i = Some sol -> solutions' !! i = Some sol' ->
            stars sol = stars sol') as Hstars.
  { induction i as [|k IH]; intros sol sol' Hsol Hsol';
      destruct (Hrow _ _ _ Hsol Hsol') as (_ & _ & _ & Hv);
      unfold stars_cell_value in Hv; simpl in Hv.
    - by injection Hv.
    - destruct (lookup_lt_is_Some_2 solutions k) as [solk Hk].
      { apply lookup_lt_Some in Hsol. lia. }
      destruct (lookup_lt_is_Some_2 solutions' k) as [solk' Hk'].
      { apply lookup_lt_Some in Hsol'. lia. }
      rewrite !list_lookup_fmap, Hk, Hsol, Hk', Hsol' in Hv. simpl in Hv.
      repeat case_bool_decide; try done.
      + by injection Hv.
      + repeat match goal with
               | Hn : ~ (_ <> _) |- _ => apply dec_stable in Hn; injection Hn as Hn
               end.
        pose proof (IH _ _ Hk Hk'). congruence. }
  apply list_eq. intros i.
  destruct (solutions !! i) as [sol|] eqn:Hsol.
  - destruct (lookup_lt_is_Some_2 solutions' i) as [sol' Hsol'].
    { apply lookup_lt_Some in Hsol. lia. }
    rewrite Hsol'. f_equal.
    destruct (Hrow _ _ _ Hsol Hsol') as (? & ? & ? & _).
    pose proof (Hstars _ _ _ Hsol Hsol').
    destruct sol, sol'. simpl in *. congruence.
  - symmetry. apply lookup_ge_None. apply lookup_ge_None in Hsol. lia.
Qed.

Lemma build_sheet_injective_witness : solve 1 2 1 2 = solve 1 2 1 2.
Proof. apply build_sheet_injective. reflexivity. Defined.
